(** * mldata: the product collector of [src/index.ts]

    A shallow embedding of the TypeScript program of [src/index.ts] and the
    properties of its formatting functions, of the per-query pagination loop
    [fetchProducts] and of the top-level [main].

    Conventions of the embedding.
    - A JavaScript string is a [string]: the sequence of the bytes of its
      UTF-8 encoding.  The three characters the program looks for (comma,
      double quote, line feed) are ASCII, and an ASCII byte never occurs
      inside the encoding of another character, so searching and replacing
      them on bytes agrees with doing so on UTF-16 code units.
    - The numeric fields the program formats are integer-valued numbers of
      the safe range (below 2^53 in absolute value), embedded as [Z]; a
      price or a rating with a fraction (499.5, 4.3) is outside the
      embedding, and every property of a formatted price or rating is a
      property of integer ones.  The two divisions of [formatRatings] are
      IEEE-754 binary64 divisions; they are embedded exactly, as the
      correctly rounded quotient (see [Number_div]).
    - The items [main] formats are records of the declared shape
      [SearchItem]; an item that lacks a field makes the conversion to a
      row throw in the program and is outside the embedding of [main].
    - The content of the file is a sequence of bytes; reading it gives its
      text, decoded as UTF-8 (see [utf8_text]).
    - Effects (console, network, timer, file system, process exit) are
      embedded in a state-and-exception monad over an explicit [World]. *)

From Stdlib Require Import ZArith NArith List String Ascii Bool Lia.
From Stdlib Require Import Numbers.DecimalString Numbers.DecimalPos.
Import ListNotations.

Open Scope string_scope.
Open Scope Z_scope.

(** ** The JavaScript runtime functions the program calls *)

Module JS.

(** The double-quote and line-feed characters. *)
Definition dquote : ascii := "034"%char.
Definition DQ : string := String dquote "".
Definition LF : string := String "010"%char "".

(** [String.prototype.includes]: [needle] occurs in [s] as a substring. *)
Fixpoint includes (s needle : string) : bool :=
  String.prefix needle s
  || match s with
     | "" => false
     | String _ s' => includes s' needle
     end.

(** [String.prototype.endsWith]. *)
Fixpoint endsWith (s suffix : string) : bool :=
  String.eqb s suffix
  || match s with
     | "" => false
     | String _ s' => endsWith s' suffix
     end.

(** [s.replace(/c/g, by)] for a one-character pattern [c]: every
    occurrence of [c] is replaced. *)
Fixpoint replace_all (c : ascii) (by_ : string) (s : string) : string :=
  match s with
  | "" => ""
  | String a s' =>
      (if Ascii.eqb a c then by_ else String a "") ++ replace_all c by_ s'
  end.

(** [Array.prototype.join]. *)
Definition join (sep : string) (l : list string) : string :=
  String.concat sep l.

(** [Number::toString] on an integer-valued number below 10^21 in
    absolute value: its decimal digits, with a minus sign when negative. *)
Definition Number_toString (n : Z) : string :=
  NilEmpty.string_of_int (Z.to_int n).

(** Digit grouping of the [en-IN] locale: the last three digits form a
    group, the digits before them groups of two. *)
Fixpoint group_pairs (fuel : nat) (rev_digits : list ascii) : list ascii :=
  match fuel with
  | O => rev_digits
  | S f =>
      match rev_digits with
      | a :: b :: ((_ :: _) as rest) => a :: b :: ","%char :: group_pairs f rest
      | _ => rev_digits
      end
  end.

Definition group_enIN (digits : string) : string :=
  let r := rev (list_ascii_of_string digits) in
  match r with
  | a :: b :: c :: ((_ :: _) as rest) =>
      string_of_list_ascii
        (rev (a :: b :: c :: ","%char :: group_pairs (List.length rest) rest))
  | _ => digits
  end.

(** [n.toLocaleString("en-IN")] on an integer-valued number. *)
Definition toLocaleString_enIN (n : Z) : string :=
  if n <? 0 then "-" ++ group_enIN (Number_toString (- n))
  else group_enIN (Number_toString n).

(** A finite positive binary64 value, [mant * 2^expo]. *)
Record double := { mant : Z; expo : Z }.

(** The quotient [p / q] scaled by [2^-e], as a fraction of integers:
    [scaled_num p e / scaled_den q e] is [p / (q * 2^e)]. *)
Definition scaled_num (p e : Z) : Z := if e <? 0 then p * 2 ^ (- e) else p.
Definition scaled_den (q e : Z) : Z := if e <? 0 then q else q * 2 ^ e.

(** Rounding of the fraction [a / b] to the nearest integer, ties to the
    even one (the rounding mode of binary64 arithmetic). *)
Definition round_half_even (a b : Z) : Z :=
  let f := a / b in
  let r := 2 * (a mod b) in
  if r <? b then f
  else if b <? r then f + 1
  else if Z.even f then f else f + 1.

(** [p / q] on two positive integer-valued numbers of the safe range: the
    binary64 number nearest to the exact quotient.  The exponent [e] is
    the one that puts the scaled quotient in [2^52, 2^53), so that the
    significand has 53 bits; the quotients of this program are far from
    the subnormal and overflow ranges. *)
Definition Number_div (p q : Z) : double :=
  let e0 := Z.log2 p - Z.log2 q - 52 in
  let e := if scaled_num p e0 <? 2 ^ 52 * scaled_den q e0 then e0 - 1 else e0 in
  {| mant := round_half_even (scaled_num p e) (scaled_den q e); expo := e |}.

(** The exact value of a double as a fraction, [num x / den x]. *)
Definition num (x : double) : Z :=
  if expo x <? 0 then mant x else mant x * 2 ^ expo x.
Definition den (x : double) : Z :=
  if expo x <? 0 then 2 ^ (- expo x) else 1.

(** The integer [n] of [Number.prototype.toFixed(1)]: the one for which
    [n / 10 - x] is as close to zero as possible, the larger one when there
    are two. That is the floor of [10 * x + 1/2]. *)
Definition tenths (x : double) : Z :=
  (20 * num x + den x) / (2 * den x).

(** The digits of [toFixed(1)] for the integer [n] of tenths: a decimal
    point before the last digit, [n] padded to two digits. *)
Definition fixed1_string (n : Z) : string :=
  Number_toString (n / 10) ++ "." ++ Number_toString (n mod 10).

(** [x.toFixed(1)] on a positive number below 10^21. *)
Definition toFixed1 (x : double) : string := fixed1_string (tenths x).

(** [encodeURIComponent]: the bytes of the UTF-8 encoding outside the
    unreserved set are percent-encoded with upper-case hexadecimal digits. *)
Definition unreserved (a : ascii) : bool :=
  let n := N_of_ascii a in
  ((65 <=? n) && (n <=? 90) || (97 <=? n) && (n <=? 122)
   || (48 <=? n) && (n <=? 57))%N
  || existsb (Ascii.eqb a) (list_ascii_of_string "-_.!~*'()").

Definition hex_digit (n : N) : ascii :=
  (if n <? 10 then ascii_of_N (48 + n) else ascii_of_N (55 + n))%N.

Fixpoint encodeURIComponent (s : string) : string :=
  match s with
  | "" => ""
  | String a s' =>
      (if unreserved a then String a ""
       else String "%"%char
              (String (hex_digit (N_of_ascii a / 16))
                 (String (hex_digit (N_of_ascii a mod 16)) "")))
      ++ encodeURIComponent s'
  end.

(** The text of a sequence of bytes, as [file.text()] and [TextDecoder]
    give it, written again as UTF-8 bytes: a leading byte order mark
    (EF BB BF) is dropped, a well-formed sequence is kept, and every
    ill-formed one becomes U+FFFD (EF BF BD).  The decoder keeps the bytes of
    the sequence it is reading, the number of bytes still needed and the
    bounds of the next byte; a byte out of the bounds ends the sequence with
    U+FFFD and is read again as the start of a sequence. *)
Definition replacement : string :=
  String "239"%char (String "191"%char (String "189"%char "")).

Definition strip_bom (bytes : string) : string :=
  match bytes with
  | String "239"%char (String "187"%char (String "191"%char rest)) => rest
  | _ => bytes
  end.

(** A byte read at the start of a sequence: what is written at once, the
    bytes kept, the number of bytes needed, the bounds of the next byte. *)
Definition lead_byte (b : ascii) : string * string * nat * N * N :=
  let n := N_of_ascii b in
  (if n <=? 127 then (String b "", "", 0%nat, 128, 191)
   else if (194 <=? n) && (n <=? 223) then ("", String b "", 1%nat, 128, 191)
   else if (224 <=? n) && (n <=? 239) then
     ("", String b "", 2%nat,
      if n =? 224 then 160 else 128, if n =? 237 then 159 else 191)
   else if (240 <=? n) && (n <=? 244) then
     ("", String b "", 3%nat,
      if n =? 240 then 144 else 128, if n =? 244 then 143 else 191)
   else (replacement, "", 0%nat, 128, 191))%N.

Fixpoint utf8_decode_from (pending : string) (needed : nat) (lower upper : N)
         (bytes : string) : string :=
  match bytes with
  | "" => match needed with O => "" | S _ => replacement end
  | String b rest =>
      match needed with
      | O =>
          let '(out, pending', needed', lower', upper') := lead_byte b in
          out ++ utf8_decode_from pending' needed' lower' upper' rest
      | S k =>
          if ((lower <=? N_of_ascii b) && (N_of_ascii b <=? upper))%N then
            match k with
            | O => pending ++ String b (utf8_decode_from "" 0 128 191 rest)
            | S _ => utf8_decode_from (pending ++ String b "") k 128 191 rest
            end
          else
            let '(out, pending', needed', lower', upper') := lead_byte b in
            replacement ++ out
            ++ utf8_decode_from pending' needed' lower' upper' rest
      end
  end.

Definition utf8_text (bytes : string) : string :=
  utf8_decode_from "" 0 128 191 (strip_bom bytes).

End JS.

(** ** Data model *)

Record Image := {
  original : string;
  small : string;
  medium : string;
  large : string
}.

Record SearchItem := {
  id : string;
  productUrl : string;
  title : string;
  image : Image;
  currency : string;
  price : Z;
  originalPrice : Z;
  starRating : Z;
  totalRatings : Z;
  apiUrl : string
}.

Definition API_BASE_URL : string := "http://localhost:8787/api/in/search".
Definition TARGET_PRODUCTS_PER_QUERY : Z := 500.

(** ** Formatting functions *)

(** The currency prefix is the string literal of the source, byte for byte
    (seven bytes). *)
Definition currency_prefix : string := "â‚¹".

Definition formatPrice (price : Z) : string :=
  currency_prefix ++ JS.toLocaleString_enIN price.

Definition formatRatings (totalRatings : Z) : string :=
  if totalRatings =? -1 then "Number 1 Top-Rated"
  else if totalRatings <? 1000 then
    "(" ++ JS.Number_toString totalRatings ++ ")"
  else if totalRatings <? 1000000 then
    let k := JS.toFixed1 (JS.Number_div totalRatings 1000) in
    "(" ++ k ++ "K)"
  else
    let m := JS.toFixed1 (JS.Number_div totalRatings 1000000) in
    "(" ++ m ++ "M)".

Definition escapeCsvField (field : string) : string :=
  if JS.includes field "," || JS.includes field JS.DQ || JS.includes field JS.LF
  then JS.DQ ++ JS.replace_all JS.dquote (JS.DQ ++ JS.DQ) field ++ JS.DQ
  else field.

Definition productToCsvRow (product : SearchItem) : string :=
  let title := escapeCsvField (title product) in
  let price := formatPrice (price product) in
  let rating := JS.Number_toString (starRating product) in
  let ratings := formatRatings (totalRatings product) in
  let url := productUrl product in
  let image := small (image product) in
  let source := "Amazon" in
  title ++ "," ++ price ++ "," ++ rating ++ "," ++ ratings ++ ","
        ++ url ++ "," ++ image ++ "," ++ source.

(** ** Effects *)

(** The exceptions the program can meet. *)
Inductive exn :=
| NetworkFailure            (* [fetch] rejects *)
| HttpError (status : Z)    (* the [Error] thrown on a response that is not ok *)
| JsonSyntaxError           (* [response.json()] rejects *)
| TypeError                 (* property read on null or undefined, spread of
                               a value that is not iterable *)
| FileReadError
| FileWriteError.

(** How a computation ends: with a value, with an exception, with
    [process.exit], or cut by the iteration bound of the loop model. *)
Inductive outcome (A : Type) :=
| Val (a : A)
| Throw (e : exn)
| Exit (code : Z)
| OutOfFuel.
Arguments Val {A} a.
Arguments Throw {A} e.
Arguments Exit {A} code.
Arguments OutOfFuel {A}.

Definition M (S A : Type) : Type := S -> outcome A * S.

Definition ret {S A} (a : A) : M S A := fun s => (Val a, s).

Definition bind {S A B} (m : M S A) (k : A -> M S B) : M S B :=
  fun s =>
    match m s with
    | (Val a, s') => k a s'
    | (Throw e, s') => (Throw e, s')
    | (Exit c, s') => (Exit c, s')
    | (OutOfFuel, s') => (OutOfFuel, s')
    end.

Definition throw {S A} (e : exn) : M S A := fun s => (Throw e, s).
Definition process_exit {S A} (code : Z) : M S A := fun s => (Exit code, s).
Definition get {S} : M S S := fun s => (Val s, s).
Definition modify {S} (f : S -> S) : M S unit := fun s => (Val tt, f s).

(** [try { m } catch (error) { h error }]. The state reached when the
    exception is thrown is the one the handler starts from. *)
Definition try_catch {S A} (m : M S A) (h : exn -> M S A) : M S A :=
  fun s =>
    match m s with
    | (Throw e, s') => h e s'
    | r => r
    end.

Declare Scope monad_scope.
Delimit Scope monad_scope with monad.
Notation "x <- m ;; k" := (bind m (fun x => k))
  (at level 61, m at next level, right associativity) : monad_scope.
Notation "m ;; k" := (bind m (fun _ => k))
  (at level 61, right associativity) : monad_scope.
Open Scope monad_scope.

(** What the program does to the outside, in order. *)
Inductive event :=
| ConsoleLog (msg : string)
| ConsoleError (msg : string) (e : exn)
| Request (url : string)
| Timeout (ms : Z)
| FileExists
| FileText
| FileWrite (content : string).

(** The file [data.csv]: absent or with a content (its bytes), and whether
    it can be read and written. *)
Record File := {
  content : option string;
  readable : bool;
  writable : bool
}.

Section Network.

Variable Item : Type.

(** The [results] field of a parsed body, by what the program observes of
    it: an iterable with its items (an array; [ResultsItems nil] is the
    empty array), a value that is falsy or has no positive [length]
    (absent, [null], a number, an object), or a truthy value with a
    positive [length] that is not iterable, whose spread throws. *)
Inductive results_field :=
| ResultsItems (items : list Item)
| ResultsAbsent
| ResultsNotIterable.

(** The [nextPage] token: [null], a string, or absent ([undefined]). *)
Inductive next_page :=
| NextNull
| NextToken (token : string)
| NextUndefined.

(** The [pagination] field: an object with its [nextPage], or a value
    ([undefined], [null]) on which reading [nextPage] throws. *)
Inductive pagination_field :=
| Pagination (nextPage : next_page)
| PaginationMissing.

(** The fields of [SearchResponse] the program reads. *)
Record SearchResponse := {
  pagination : pagination_field;
  results : results_field
}.

(** The body of a response: not JSON, the JSON [null] (every property
    read throws), or a value with properties. *)
Inductive body :=
| BodyNotJson
| BodyNull
| BodyData (data : SearchResponse).

Record Response := {
  ok : bool;
  status : Z;
  response_body : body
}.

(** What [fetch] does on one request. *)
Inductive fetch_result :=
| FetchRejects
| FetchResolves (response : Response).

(** The world of a run: the command line, the answer of the network to
    the k-th request of the run, the number of requests issued so far,
    the events so far, the file. *)
Record World := {
  argv : list string;
  network : nat -> fetch_result;
  requests : nat;
  trace : list event;
  file : File
}.

Definition emit (e : event) (w : World) : World :=
  {| argv := argv w; network := network w; requests := requests w;
     trace := trace w ++ [e]; file := file w |}.

Definition console_log (msg : string) : M World unit :=
  modify (emit (ConsoleLog msg)).

Definition console_error (msg : string) (e : exn) : M World unit :=
  modify (emit (ConsoleError msg e)).

Definition setTimeout (ms : Z) : M World unit :=
  modify (emit (Timeout ms)).

(** [await fetch(url)]. *)
Definition fetch (url : string) : M World Response :=
  fun w =>
    let w' := {| argv := argv w; network := network w;
                 requests := S (requests w);
                 trace := trace w ++ [Request url]; file := file w |} in
    match network w (requests w) with
    | FetchRejects => (Throw NetworkFailure, w')
    | FetchResolves r => (Val r, w')
    end.

(** [await response.json()]; [None] is the value [null]. *)
Definition json {S} (r : Response) : M S (option SearchResponse) :=
  match response_body r with
  | BodyNotJson => throw JsonSyntaxError
  | BodyNull => ret None
  | BodyData d => ret (Some d)
  end.

(** [await Bun.file("data.csv").exists()]. *)
Definition file_exists : M World bool :=
  fun w =>
    (Val (match content (file w) with Some _ => true | None => false end),
     emit FileExists w).

(** [await file.text()]: the bytes of the file read as UTF-8 text; throws
    when the file cannot be read. *)
Definition file_text : M World string :=
  fun w =>
    match content (file w) with
    | Some bytes =>
        if readable (file w) then (Val (JS.utf8_text bytes), emit FileText w)
        else (Throw FileReadError, emit FileText w)
    | None => (Throw FileReadError, emit FileText w)
    end.

(** [await Bun.write("data.csv", data)]: replaces the content, or throws
    when the file cannot be written. *)
Definition Bun_write (data : string) : M World unit :=
  fun w =>
    if writable (file w) then
      (Val tt,
       {| argv := argv w; network := network w; requests := requests w;
          trace := trace w ++ [FileWrite data];
          file := {| content := Some data; readable := readable (file w);
                     writable := true |} |})
    else (Throw FileWriteError, emit (FileWrite data) w).

(** ** [fetchProducts] *)

(** The state of one call: the world and the three local variables. *)
Record Frame := {
  world : World;
  allProducts : list Item;
  page : Z;
  hasMore : bool
}.

Definition lift {A} (m : M World A) : M Frame A :=
  fun st =>
    let (r, w) := m (world st) in
    (r, {| world := w; allProducts := allProducts st; page := page st;
           hasMore := hasMore st |}).

Definition push (items : list Item) : M Frame unit :=
  modify (fun st => {| world := world st;
                       allProducts := allProducts st ++ items;
                       page := page st; hasMore := hasMore st |}).

Definition set_hasMore (b : bool) : M Frame unit :=
  modify (fun st => {| world := world st; allProducts := allProducts st;
                       page := page st; hasMore := b |}).

Definition incr_page : M Frame unit :=
  modify (fun st => {| world := world st; allProducts := allProducts st;
                       page := page st + 1; hasMore := hasMore st |}).

Definition length_ (l : list Item) : Z := Z.of_nat (List.length l).

(** [data.results]: throws on [null]. *)
Definition data_results (data : option SearchResponse) : M Frame results_field :=
  match data with
  | None => throw TypeError
  | Some d => ret (results d)
  end.

(** [data.pagination.nextPage]. *)
Definition data_pagination_nextPage (data : option SearchResponse)
  : M Frame next_page :=
  match data with
  | None => throw TypeError
  | Some d =>
      match pagination d with
      | PaginationMissing => throw TypeError
      | Pagination n => ret n
      end
  end.

Definition not_null (n : next_page) : bool :=
  match n with
  | NextNull => false
  | _ => true
  end.

(** The body of the [try] block of the loop. *)
Definition try_block (query : string) : M Frame unit :=
  st <- get ;;
  let url := API_BASE_URL ++ "?query=" ++ JS.encodeURIComponent query
             ++ "&page=" ++ JS.Number_toString (page st) in
  lift (console_log ("  Fetching page " ++ JS.Number_toString (page st)
                     ++ "... ("
                     ++ JS.Number_toString (length_ (allProducts st))
                     ++ " products so far)")) ;;
  response <- lift (fetch url) ;;
  (if negb (ok response) then throw (HttpError (status response))
   else ret tt) ;;
  data <- json response ;;
  res <- data_results data ;;
  match res with
  | ResultsItems ((_ :: _) as items) =>
      push items ;;
      st' <- get ;;
      lift (console_log ("  Got " ++ JS.Number_toString (length_ items)
                         ++ " products (total: "
                         ++ JS.Number_toString (length_ (allProducts st'))
                         ++ ")")) ;;
      next <- data_pagination_nextPage data ;;
      set_hasMore (not_null next) ;;
      incr_page
  | ResultsNotIterable => throw TypeError
  | _ => set_hasMore false
  end ;;
  lift (setTimeout 100).

(** The [catch] block of the loop. *)
Definition catch_block (query : string) (error : exn) : M Frame unit :=
  st <- get ;;
  lift (console_error ("Error fetching page " ++ JS.Number_toString (page st)
                       ++ " for query " ++ JS.DQ ++ query ++ JS.DQ ++ ":")
                      error) ;;
  set_hasMore false.

Definition loop_condition (st : Frame) : bool :=
  hasMore st && (length_ (allProducts st) <? TARGET_PRODUCTS_PER_QUERY).

(** The [while] loop, with a bound on the number of iterations. *)
Fixpoint while_loop (fuel : nat) (query : string) : M Frame unit :=
  fun st =>
    if loop_condition st then
      match fuel with
      | O => (OutOfFuel, st)
      | S fuel' =>
          (try_catch (try_block query) (catch_block query) ;;
           while_loop fuel' query) st
      end
    else (Val tt, st).

(** Runs [m] with fresh local variables. *)
Definition with_locals {A} (m : M Frame A) : M World A :=
  fun w =>
    let (r, st) := m {| world := w; allProducts := []; page := 1;
                        hasMore := true |} in
    (r, world st).

Definition fetchProducts_bounded (fuel : nat) (query : string)
  : M World (list Item) :=
  with_locals
    (lift (console_log ("Fetching products for query: " ++ JS.DQ ++ query
                        ++ JS.DQ ++ "...")) ;;
     while_loop fuel query ;;
     st <- get ;;
     lift (console_log ("Finished fetching "
                        ++ JS.Number_toString (length_ (allProducts st))
                        ++ " products for query: " ++ JS.DQ ++ query
                        ++ JS.DQ)) ;;
     ret (firstn (Z.to_nat TARGET_PRODUCTS_PER_QUERY) (allProducts st))).

(** Every iteration that does not end the loop adds an item, so the loop
    body runs at most [TARGET_PRODUCTS_PER_QUERY] times
    (see [while_loop_fuel]). *)
Definition fetchProducts : string -> M World (list Item) :=
  fetchProducts_bounded (Z.to_nat TARGET_PRODUCTS_PER_QUERY).

End Network.

Arguments ResultsItems {Item} items.
Arguments ResultsAbsent {Item}.
Arguments ResultsNotIterable {Item}.
Arguments BodyNotJson {Item}.
Arguments BodyNull {Item}.
Arguments BodyData {Item} data.
Arguments FetchRejects {Item}.
Arguments FetchResolves {Item} response.
Arguments argv {Item} w.
Arguments network {Item} w _.
Arguments requests {Item} w.
Arguments trace {Item} w.
Arguments file {Item} w.
Arguments ok {Item} r.
Arguments status {Item} r.
Arguments response_body {Item} r.
Arguments pagination {Item} s.
Arguments results {Item} s.
Arguments world {Item} f.
Arguments allProducts {Item} f.
Arguments page {Item} f.
Arguments hasMore {Item} f.
Arguments emit {Item} e w.
Arguments console_log {Item} msg _.
Arguments console_error {Item} msg e _.
Arguments setTimeout {Item} ms _.
Arguments fetch {Item} url _.
Arguments json {Item S} r _.
Arguments file_exists {Item} _.
Arguments file_text {Item} _.
Arguments Bun_write {Item} data _.
Arguments lift {Item A} m _.
Arguments push {Item} items _.
Arguments set_hasMore {Item} b _.
Arguments incr_page {Item} _.
Arguments length_ {Item} l.
Arguments data_results {Item} data _.
Arguments data_pagination_nextPage {Item} data _.
Arguments try_block {Item} query _.
Arguments catch_block {Item} query error _.
Arguments loop_condition {Item} st.
Arguments while_loop {Item} fuel query _.
Arguments with_locals {Item A} m _.
Arguments fetchProducts_bounded {Item} fuel query _.
Arguments fetchProducts {Item} _ _.

(** ** [main] *)

(** The [for] loop over the queries. *)
Fixpoint for_each_query (queries : list string) (allProducts : list SearchItem)
  : M (World SearchItem) (list SearchItem) :=
  match queries with
  | [] => ret allProducts
  | query :: rest =>
      products <- fetchProducts query ;;
      for_each_query rest (allProducts ++ products)
  end.

(** The [try]/[catch] that reads the existing content of the file. *)
Definition read_existing : M (World SearchItem) string :=
  try_catch
    (exists_ <- file_exists ;;
     if exists_ : bool then
       existingContent <- file_text ;;
       if negb (String.eqb existingContent "")
          && negb (JS.endsWith existingContent JS.LF)
       then ret (existingContent ++ JS.LF)
       else ret existingContent
     else ret "")
    (fun _ => ret "").

Definition main : M (World SearchItem) unit :=
  w <- get ;;
  let queries := skipn 2 (argv w) in
  (if Z.of_nat (List.length queries) =? 0 then
     console_log "Usage: bun index.ts <query1> <query2> ..." ;;
     console_log "Example: bun index.ts samsung iphone oneplus" ;;
     process_exit 1
   else ret tt) ;;
  allProducts <- for_each_query queries [] ;;
  console_log (JS.LF ++ "Writing " ++ JS.Number_toString (length_ allProducts)
               ++ " products to data.csv...") ;;
  let csvRows := map productToCsvRow allProducts in
  let csvContent := JS.join JS.LF csvRows in
  existingContent <- read_existing ;;
  let finalContent := existingContent ++ csvContent in
  Bun_write finalContent ;;
  console_log ("Successfully appended "
               ++ JS.Number_toString (length_ allProducts)
               ++ " products to data.csv").

(** The last line of the script: [main().catch(console.error)]. *)
Definition script : M (World SearchItem) unit :=
  try_catch main (fun error => console_error "" error).

(** How the process ends: with an exit status, on an uncaught exception
    (which the runtime reports with a non-zero status), or not within the
    iteration bound. *)
Inductive termination :=
| Status (code : Z)
| Uncaught (e : exn)
| Unfinished.

Definition run (w : World SearchItem) : termination * World SearchItem :=
  match script w with
  | (Val _, w') => (Status 0, w')
  | (Throw e, w') => (Uncaught e, w')
  | (Exit code, w') => (Status code, w')
  | (OutOfFuel, w') => (Unfinished, w')
  end.

(** * Vocabulary of the properties *)

(** ** CSV rows *)

(** The reading of a line the specification's escaping rule defines: a
    comma separates two fields unless it stands between double quotes. The
    fields are returned as they are written, quotes included. *)
Definition cons_char (c : ascii) (fields : list string) : list string :=
  match fields with
  | f :: fs => String c f :: fs
  | [] => [String c ""]
  end.

Fixpoint csv_fields_from (quoted : bool) (line : string) : list string :=
  match line with
  | "" => [""]
  | String c rest =>
      if Ascii.eqb c JS.dquote then
        cons_char c (csv_fields_from (negb quoted) rest)
      else if Ascii.eqb c ","%char && negb quoted then
        "" :: csv_fields_from quoted rest
      else cons_char c (csv_fields_from quoted rest)
  end.

Definition csv_fields (line : string) : list string :=
  csv_fields_from false line.

(** The title of the specification's example: [He said], then [hi] between
    double quotes, then a comma and [ok]. *)
Definition he_said : string :=
  "He said " ++ JS.DQ ++ "hi" ++ JS.DQ ++ ", ok".

(** A well-formed product whose price is 1000. *)
Definition phone : SearchItem :=
  {| id := "B0"; productUrl := "u"; title := "Phone";
     image := {| original := "o"; small := "i"; medium := "m"; large := "l" |};
     currency := "INR"; price := 1000; originalPrice := 1200; starRating := 4;
     totalRatings := 500; apiUrl := "a" |}.

(** ** Answers of the network and states of the loop *)

Section Answers.

Context {Item : Type}.

Abbreviation Frame := (Frame Item).
Abbreviation CAP := (Z.to_nat TARGET_PRODUCTS_PER_QUERY).

(** One iteration of the loop: the [try] block under its [catch]. *)
Definition iteration (query : string) : M Frame unit :=
  try_catch (try_block query) (catch_block query).

(** What an iteration may change: it issues requests, appends items and
    events; it leaves the command line, the network and the file alone. *)
Record extends (st st' : Frame) : Prop := {
  ext_argv : argv (world st') = argv (world st);
  ext_network : network (world st') = network (world st);
  ext_file : file (world st') = file (world st);
  ext_requests : (requests (world st) <= requests (world st'))%nat;
  ext_items : exists items, allProducts st' = (allProducts st ++ items)%list;
  ext_trace : exists evs, trace (world st') = (trace (world st) ++ evs)%list
}.

(** The answer of the network to the next request of a state. *)
Definition next_answer (st : Frame) : fetch_result Item :=
  network (world st) (requests (world st)).

(** The answers of the network, by what the loop makes of them.

    A transport failure: [fetch] rejects, the status is not a success, or
    the body is not JSON. *)
Definition transport_failure (r : fetch_result Item) : bool :=
  match r with
  | FetchRejects => true
  | FetchResolves resp =>
      negb (ok resp)
      || match response_body resp with
         | BodyNotJson => true
         | _ => false
         end
  end.

(** A page with a non-empty [results] and a [nextPage] that is not null:
    its items. *)
Definition continuing_page (r : fetch_result Item) : option (list Item) :=
  match r with
  | FetchResolves resp =>
      match ok resp, response_body resp with
      | true, BodyData {| pagination := Pagination n;
                          results := ResultsItems ((_ :: _) as items) |} =>
          if not_null n then Some items else None
      | _, _ => None
      end
  | FetchRejects => None
  end.

(** A page that parses, with a non-empty [results], on which reading
    [pagination.nextPage] throws: its items. *)
Definition page_without_pagination (r : fetch_result Item)
  : option (list Item) :=
  match r with
  | FetchResolves resp =>
      match ok resp, response_body resp with
      | true, BodyData {| pagination := PaginationMissing;
                          results := ResultsItems ((_ :: _) as items) |} =>
          Some items
      | _, _ => None
      end
  | FetchRejects => None
  end.

(** The frame the loop of [fetchProducts] starts from. *)
Definition initial_frame (query : string) (w : World Item) : Frame :=
  {| world := emit (ConsoleLog ("Fetching products for query: " ++ JS.DQ
                                ++ query ++ JS.DQ ++ "...")) w;
     allProducts := []; page := 1; hasMore := true |}.

(** From the request number [from] on, the network answers with the
    continuing pages [pages], in order. *)
Definition continuing_pages
           (net : nat -> fetch_result Item) (from : nat)
           (pages : list (list Item)) : Prop :=
  forall i, (i < List.length pages)%nat ->
            continuing_page (net (from + i)%nat) = Some (nth i pages []).

(** The items of the first [k] pages of a sequence of pages. *)
Definition fetched (items : nat -> list Item) (from k : nat) : list Item :=
  List.concat (map items (seq from k)).

(** A last page: a non-empty [results] and a [nextPage] that is null. *)
Definition last_page (r : fetch_result Item) : option (list Item) :=
  match r with
  | FetchResolves resp =>
      match ok resp, response_body resp with
      | true, BodyData {| pagination := Pagination NextNull;
                          results := ResultsItems ((_ :: _) as items) |} =>
          Some items
      | _, _ => None
      end
  | FetchRejects => None
  end.

(** A page without results: [results] is the empty array, or is absent or
    falsy; the [pagination] is any. *)
Definition empty_page (r : fetch_result Item) : bool :=
  match r with
  | FetchResolves resp =>
      ok resp
      && match response_body resp with
         | BodyData {| results := ResultsItems [] |} => true
         | BodyData {| results := ResultsAbsent |} => true
         | _ => false
         end
  | FetchRejects => false
  end.

(** A body of an unexpected shape: the JSON [null], or a [results] that
    has a positive [length] and cannot be spread. *)
Definition unexpected_shape (r : fetch_result Item) : bool :=
  match r with
  | FetchResolves resp =>
      ok resp
      && match response_body resp with
         | BodyNull => true
         | BodyData {| results := ResultsNotIterable |} => true
         | _ => false
         end
  | FetchRejects => false
  end.

End Answers.

(** The URL [fetchProducts] requests for a page of a query. *)
Definition page_url (query : string) (page : Z) : string :=
  API_BASE_URL ++ "?query=" ++ JS.encodeURIComponent query
  ++ "&page=" ++ JS.Number_toString page.

(** The URLs requested in a trace, in order. *)
Fixpoint request_urls (evs : list event) : list string :=
  match evs with
  | [] => []
  | Request url :: evs' => url :: request_urls evs'
  | _ :: evs' => request_urls evs'
  end.

(** The file operations of a trace, in order. *)
Definition is_file_event (e : event) : bool :=
  match e with
  | FileExists | FileText | FileWrite _ => true
  | _ => false
  end.

Definition file_events (evs : list event) : list event :=
  filter is_file_event evs.

(** ** Runs of the script *)

(** A response with a parsed body. *)
Definition page_of {Item} (items : list Item) (p : pagination_field)
  : fetch_result Item :=
  FetchResolves
    {| ok := true; status := 200;
       response_body := BodyData {| pagination := p;
                                    results := ResultsItems items |} |}.

Definition world_of {Item} (args : list string)
           (net : nat -> fetch_result Item) (f : File) : World Item :=
  {| argv := "bun" :: "index.ts" :: args; network := net; requests := 0;
     trace := []; file := f |}.

Definition no_file : File :=
  {| content := None; readable := true; writable := true |}.

(** Two continuing pages, then the network fails on the third request. *)
Definition fails_on_page_3 : World nat :=
  world_of ["tv"]
    (fun k => match k with
              | 0%nat => page_of [1; 2]%nat (Pagination (NextToken "2"))
              | 1%nat => page_of [3]%nat (Pagination (NextToken "3"))
              | _ => FetchRejects
              end)
    no_file.

(** One continuing page, then a page of two items without [pagination]. *)
Definition no_pagination_on_page_2 : World nat :=
  world_of ["tv"]
    (fun k => match k with
              | 0%nat => page_of [1; 2]%nat (Pagination (NextToken "2"))
              | _ => page_of [3; 4]%nat PaginationMissing
              end)
    no_file.

(** A first page of 501 items without [pagination]. *)
Definition oversized_page : World nat :=
  world_of ["tv"] (fun _ => page_of (seq 0 501) PaginationMissing) no_file.

(** Every answer is a continuing page of 200 items. *)
Definition endless_pages : World nat :=
  world_of ["tv"]
    (fun _ => page_of (repeat 7%nat 200) (Pagination (NextToken "more")))
    no_file.

(** The line feed a run puts after the text it keeps: one when that text is
    not empty and does not end with a line feed, none otherwise. *)
Definition separator (text : string) : string :=
  if negb (String.eqb text "") && negb (JS.endsWith text JS.LF)
  then JS.LF else "".

(** What a run keeps of the file it finds: the text of its content, with
    the separator; nothing when the file is absent or cannot be read. *)
Definition kept_content (f : File) : string :=
  match content f with
  | Some old =>
      if readable f then JS.utf8_text old ++ separator (JS.utf8_text old)
      else ""
  | None => ""
  end.

(** The text [main] hands to [Bun.write]. *)
Definition new_content (f : File) (products : list SearchItem) : string :=
  kept_content f ++ JS.join JS.LF (map productToCsvRow products).

(** A termination is abnormal when the status is not zero or an exception
    is left uncaught. *)
Definition abnormal (t : termination) : Prop :=
  match t with
  | Status code => code <> 0
  | Uncaught _ => True
  | Unfinished => False
  end.

(** The network answers the first request with one page, the last one, that
    holds [phone]. *)
Definition one_phone (k : nat) : fetch_result SearchItem :=
  match k with
  | 0%nat => page_of [phone] (Pagination NextNull)
  | _ => FetchRejects
  end.

(** A file without final line feed, readable and writable. *)
Definition appending_run : World SearchItem :=
  world_of ["tv"] one_phone
    {| content := Some "old"; readable := true; writable := true |}.


(** A file that can be read but not written. *)
Definition read_only_run : World SearchItem :=
  world_of ["tv"] one_phone
    {| content := Some "old"; readable := true; writable := false |}.

(** ** Texts that need no escaping, and the reading of an escaped field *)

(** No comma, no double quote, no line feed. *)
Definition plain_char (c : ascii) : bool :=
  negb (Ascii.eqb c ","%char) && negb (Ascii.eqb c JS.dquote)
  && negb (Ascii.eqb c "010"%char).

Fixpoint csv_safe (s : string) : bool :=
  match s with
  | "" => true
  | String c s' => plain_char c && csv_safe s'
  end.

(** Every character but the comma. *)
Definition not_comma (c : ascii) : bool := negb (Ascii.eqb c ","%char).

(** The text between the quotes of a quoted field: a doubled quote stands
    for one quote, a single quote ends the field. *)
Fixpoint csv_unquote_from (s : string) : string :=
  match s with
  | "" => ""
  | String c rest =>
      if Ascii.eqb c JS.dquote then
        match rest with
        | String c' rest' =>
            if Ascii.eqb c' JS.dquote then String c' (csv_unquote_from rest')
            else ""
        | "" => ""
        end
      else String c (csv_unquote_from rest)
  end.

(** The value of a field as a CSV reader takes it: the text between the
    quotes when the field starts with a quote, the field itself otherwise. *)
Definition csv_unquote (field : string) : string :=
  match field with
  | String c rest => if Ascii.eqb c JS.dquote then csv_unquote_from rest
                     else field
  | "" => ""
  end.

(** The events of [main] from the end of the fetching to the write: the
    log line, the test of existence, the read when the file exists, the
    write. *)
Definition write_events (f : File) (products : list SearchItem) : list event :=
  ConsoleLog (JS.LF ++ "Writing " ++ JS.Number_toString (length_ products)
              ++ " products to data.csv...")
  :: FileExists
  :: (match content f with Some _ => [FileText] | None => [] end
      ++ [FileWrite (new_content f products)])%list.

(** The last event of a run that reaches the write. *)
Definition final_event (f : File) (products : list SearchItem) : event :=
  if writable f then
    ConsoleLog ("Successfully appended "
                ++ JS.Number_toString (length_ products)
                ++ " products to data.csv")
  else ConsoleError "" FileWriteError.

(** A product whose title needs escaping, with a price below 1000. *)
Definition earbuds : SearchItem :=
  {| id := "B1"; productUrl := "http://shop/p/1"; title := he_said;
     image := {| original := "o"; small := "http://img/1.jpg"; medium := "m";
                 large := "l" |};
     currency := "INR"; price := 799; originalPrice := 999; starRating := 4;
     totalRatings := 12349; apiUrl := "a" |}.

(** One continuing page, then a last page. *)
Definition ends_on_page_2 : World nat :=
  world_of ["tv"]
    (fun k => match k with
              | 0%nat => page_of [1; 2]%nat (Pagination (NextToken "2"))
              | _ => page_of [3]%nat (Pagination NextNull)
              end)
    no_file.

(** One continuing page, then an empty page that announces a next page. *)
Definition empty_page_2 : World nat :=
  world_of ["tv"]
    (fun k => match k with
              | 0%nat => page_of [1; 2]%nat (Pagination (NextToken "2"))
              | _ => page_of [] (Pagination (NextToken "3"))
              end)
    no_file.

(** One continuing page, then a body that is the JSON [null]. *)
Definition null_body_page_2 : World nat :=
  world_of ["tv"]
    (fun k => match k with
              | 0%nat => page_of [1; 2]%nat (Pagination (NextToken "2"))
              | _ => FetchResolves {| ok := true; status := 200;
                                      response_body := BodyNull |}
              end)
    no_file.


(** The reading of a whole content the specification's escaping rule
    defines: outside double quotes a comma ends a field and a line feed ends
    a record; between quotes both are part of the field.  The records are
    returned with their fields as they are written, quotes included. *)
Definition push_char (c : ascii) (records : list (list string))
  : list (list string) :=
  match records with
  | (f :: fs) :: rs => (String c f :: fs) :: rs
  | [] :: rs => [String c ""] :: rs
  | [] => [[String c ""]]
  end.

(** Puts a whole field in front of the first record. *)
Definition first_field (field : string) (records : list (list string))
  : list (list string) :=
  match records with
  | r :: rs => (field :: r) :: rs
  | [] => [[field]]
  end.

Fixpoint csv_parse_from (quoted : bool) (content : string)
  : list (list string) :=
  match content with
  | "" => [[""]]
  | String c rest =>
      if Ascii.eqb c JS.dquote then
        push_char c (csv_parse_from (negb quoted) rest)
      else if Ascii.eqb c ","%char && negb quoted then
        first_field "" (csv_parse_from quoted rest)
      else if Ascii.eqb c "010"%char && negb quoted then
        [""] :: csv_parse_from quoted rest
      else push_char c (csv_parse_from quoted rest)
  end.

Definition csv_parse (content : string) : list (list string) :=
  csv_parse_from false content.

(** The loop of [main], query by query: each query is one call of
    [fetchProducts] from the world the previous one left, which returns at
    most 500 products and issues between 1 and 500 requests; [products] is
    what the calls return, in order, and [w'] the world after the last. *)
Fixpoint each_query_bounded
         (queries : list string) (w : World SearchItem)
         (products : list SearchItem) (w' : World SearchItem) : Prop :=
  match queries with
  | [] => products = [] /\ w' = w
  | query :: rest =>
      exists (first : list SearchItem) (w1 : World SearchItem)
             (others : list SearchItem),
        fetchProducts query w = (Val first, w1)
        /\ (List.length first <= 500)%nat
        /\ (requests w < requests w1 <= requests w + 500)%nat
        /\ products = (first ++ others)%list
        /\ each_query_bounded rest w1 others w'
  end.

(** A readable and writable file that starts with a byte order mark. *)
Definition bom_run : World SearchItem :=
  world_of ["tv"] one_phone
    {| content := Some (String "239"%char (String "187"%char
                          (String "191"%char "old")));
       readable := true; writable := true |}.

(** * Properties *)

(** ** Number formatting *)

Lemma round_half_even_near (a b : Z) :
  0 < b -> 2 * Z.abs (JS.round_half_even a b * b - a) <= b.
Proof.
  intros Hb. unfold JS.round_half_even.
  pose proof (Z.div_mod a b ltac:(lia)) as Hdm.
  pose proof (Z.mod_pos_bound a b Hb) as Hm.
  destruct (2 * (a mod b) <? b) eqn:E1; [apply Z.ltb_lt in E1; nia|].
  apply Z.ltb_ge in E1.
  destruct (b <? 2 * (a mod b)) eqn:E2; [apply Z.ltb_lt in E2; nia|].
  apply Z.ltb_ge in E2.
  destruct (Z.even (a / b)); nia.
Qed.

Lemma Number_div_expo (n q : Z) :
  0 < q -> q <= n < 2 ^ 53 ->
  JS.expo (JS.Number_div n q) <= - Z.log2 q.
Proof.
  intros Hq Hn. unfold JS.Number_div. cbn [JS.expo].
  assert (Z.log2 n < 53) by (apply Z.log2_lt_pow2; lia).
  destruct (_ <? _); lia.
Qed.

Lemma tenths_nearest (n q P t m : Z) :
  0 < q -> 0 < n -> q < 2 * P ->
  2 * Z.abs (m * q - n * P) <= q ->
  2 * P * t <= 20 * m + P < 2 * P * (t + 1) ->
  2 * P * Z.abs (q * t - 10 * n) < q * P + 20 * P.
Proof.
  intros Hq Hn HP Hm Ht.
  assert (E : 2 * (P * (q * t - 10 * n))
              = q * (2 * P * t - 20 * m) + 20 * (m * q - n * P)) by ring.
  assert (B1 : - (q * P) <= q * (2 * P * t - 20 * m) <= q * P) by nia.
  assert (B2 : Z.abs (20 * (m * q - n * P)) <= 10 * q) by lia.
  assert (B3 : 10 * q < 20 * P) by lia.
  assert (Z.abs (2 * (P * (q * t - 10 * n))) < q * P + 20 * P) by lia.
  assert (0 < P) by lia.
  rewrite Z.abs_mul, Z.abs_mul in H.
  rewrite (Z.abs_eq 2), (Z.abs_eq P) in H by lia. lia.
Qed.

Lemma round_half_even_floor (a b : Z) :
  0 < b -> a / b <= JS.round_half_even a b <= a / b + 1.
Proof.
  intros Hb. unfold JS.round_half_even.
  destruct (_ <? _); [lia|]. destruct (_ <? _); [lia|].
  destruct (Z.even _); lia.
Qed.

(** [Number_div] is the correctly rounded quotient: the significand has 53
    bits (or is [2^53], the first value of the next binade), and the result
    is within half a unit in the last place of the exact quotient. *)
Lemma Number_div_correctly_rounded (n q : Z) :
  2 <= q -> q <= n < 2 ^ 53 ->
  let x := JS.Number_div n q in
  JS.expo x < 0
  /\ 2 ^ 52 <= JS.mant x <= 2 ^ 53
  /\ 2 * Z.abs (JS.mant x * q - n * 2 ^ (- JS.expo x)) <= q.
Proof.
  intros Hq Hn.
  assert (Hlp : Z.log2 n < 53) by (apply Z.log2_lt_pow2; lia).
  assert (Hlq : 1 <= Z.log2 q) by (apply Z.log2_le_pow2; simpl; lia).
  assert (Hle : Z.log2 q <= Z.log2 n) by (apply Z.log2_le_mono; lia).
  destruct (Z.log2_spec n ltac:(lia)) as [Hn1 Hn2].
  destruct (Z.log2_spec q ltac:(lia)) as [Hq1 Hq2].
  rewrite Z.pow_succ_r in Hn2, Hq2 by apply Z.log2_nonneg.
  set (e0 := Z.log2 n - Z.log2 q - 52).
  assert (He0 : e0 < 0) by (unfold e0; lia).
  assert (HA : 2 ^ Z.log2 n * 2 ^ (- e0) = 2 ^ 52 * 2 ^ Z.log2 q).
  { rewrite <- !Z.pow_add_r by (unfold e0; lia). f_equal. unfold e0. lia. }
  assert (HA0 : 0 < 2 ^ (- e0)) by (apply Z.pow_pos_nonneg; lia).
  assert (Hlow : 2 ^ 52 * q < 2 * (n * 2 ^ (- e0))) by nia.
  assert (Hhigh : n * 2 ^ (- e0) < 2 ^ 53 * q).
  { change (2 ^ 53) with (2 * 2 ^ 52). nia. }
  assert (HA1 : 2 ^ (- (e0 - 1)) = 2 * 2 ^ (- e0)).
  { replace (- (e0 - 1)) with (Z.succ (- e0)) by lia.
    apply Z.pow_succ_r. lia. }
  unfold JS.Number_div. fold e0. cbn zeta.
  unfold JS.scaled_num, JS.scaled_den.
  assert (T0 : (e0 <? 0) = true) by (apply Z.ltb_lt; lia).
  assert (T1 : (e0 - 1 <? 0) = true) by (apply Z.ltb_lt; lia).
  rewrite T0.
  destruct (Z.ltb_spec (n * 2 ^ (- e0)) (2 ^ 52 * q)) as [Hlt|Hge];
    cbn [JS.expo JS.mant]; rewrite ?T0, ?T1;
    (split; [lia|]); (split; [|apply round_half_even_near; lia]).
  - rewrite HA1.
    pose proof (round_half_even_floor (n * (2 * 2 ^ (- e0))) q ltac:(lia)) as F.
    assert (2 ^ 52 <= n * (2 * 2 ^ (- e0)) / q)
      by (apply Z.div_le_lower_bound; lia).
    assert (n * (2 * 2 ^ (- e0)) / q < 2 ^ 53)
      by (apply Z.div_lt_upper_bound; lia).
    lia.
  - pose proof (round_half_even_floor (n * 2 ^ (- e0)) q ltac:(lia)) as F.
    assert (2 ^ 52 <= n * 2 ^ (- e0) / q)
      by (apply Z.div_le_lower_bound; lia).
    assert (n * 2 ^ (- e0) / q < 2 ^ 53)
      by (apply Z.div_lt_upper_bound; lia).
    lia.
Qed.

Lemma Number_div_shape (n q : Z) :
  0 < q -> q <= n < 2 ^ 53 ->
  exists e, e <= - Z.log2 q /\
    JS.Number_div n q
    = {| JS.mant := JS.round_half_even (JS.scaled_num n e) (JS.scaled_den q e);
         JS.expo := e |}.
Proof.
  intros Hq Hn. exists (JS.expo (JS.Number_div n q)). split.
  - now apply Number_div_expo.
  - reflexivity.
Qed.

(** The tenths displayed for [n / q] are the tenths nearest to the exact
    quotient, for a divisor that is a multiple of 20 (1000 and 1000000 are). *)
Lemma tenths_Number_div (n q : Z) :
  0 < q -> (20 | q) -> q <= n < 2 ^ 53 ->
  let t := JS.tenths (JS.Number_div n q) in
  0 <= t /\ 2 * Z.abs (q * t - 10 * n) <= q.
Proof.
  intros Hq [c Hc] Hn.
  destruct (Number_div_shape n q Hq Hn) as (e & He & ->).
  assert (Hl : 4 <= Z.log2 q) by (apply Z.log2_le_pow2; simpl; lia).
  assert (Hneg : (e <? 0) = true) by (apply Z.ltb_lt; lia).
  unfold JS.tenths, JS.num, JS.den, JS.scaled_num, JS.scaled_den.
  cbn [JS.mant JS.expo]. rewrite Hneg.
  set (P := 2 ^ (- e)).
  set (m := JS.round_half_even (n * P) q).
  assert (HP : q < 2 * P).
  { pose proof (Z.log2_spec q Hq) as [_ Hlt].
    assert (2 ^ Z.succ (Z.log2 q) <= 2 ^ (- e + 1))
      by (apply Z.pow_le_mono_r; lia).
    unfold P. replace (2 * 2 ^ (- e)) with (2 ^ (- e + 1))
      by (rewrite Z.pow_add_r by lia; ring). lia. }
  assert (Hm : 2 * Z.abs (m * q - n * P) <= q)
    by (apply round_half_even_near; lia).
  assert (HP0 : 0 < P) by lia.
  assert (Hm0 : 0 <= m) by nia.
  set (t := (20 * m + P) / (2 * P)).
  assert (Ht : 2 * P * t <= 20 * m + P < 2 * P * (t + 1)).
  { pose proof (Z.div_mod (20 * m + P) (2 * P) ltac:(lia)) as D.
    pose proof (Z.mod_pos_bound (20 * m + P) (2 * P) ltac:(lia)) as B.
    fold t in D. nia. }
  split.
  - unfold t. apply Z.div_pos; lia.
  - pose proof (tenths_nearest n q P t m Hq ltac:(lia) HP Hm Ht) as Hd.
    assert (Hd' : 2 * Z.abs (q * t - 10 * n) < q + 20) by nia.
    replace (q * t - 10 * n) with (10 * (2 * c * t - n)) in * by lia.
    rewrite Z.abs_mul in *. rewrite (Z.abs_eq 10) in * by lia. lia.
Qed.

Lemma string_app_assoc (a b c : string) : (a ++ b) ++ c = a ++ (b ++ c).
Proof. induction a as [|x a IH]; simpl; [reflexivity | now rewrite IH]. Qed.

Lemma string_app_nil_r (a : string) : a ++ "" = a.
Proof. induction a as [|x a IH]; simpl; [reflexivity | now rewrite IH]. Qed.

Lemma formatRatings_K (n : Z) :
  1000 <= n < 1000000 ->
  exists t, 0 <= t /\ Z.abs (100 * t - n) <= 50 /\
    formatRatings n
    = "(" ++ JS.Number_toString (t / 10) ++ "."
          ++ JS.Number_toString (t mod 10) ++ "K)".
Proof.
  intros Hn. exists (JS.tenths (JS.Number_div n 1000)).
  destruct (tenths_Number_div n 1000) as [H0 H1];
    [lia | exists 50; reflexivity | lia |].
  repeat split; [assumption | lia |].
  unfold formatRatings.
  destruct (Z.eqb_spec n (-1)); [lia|].
  destruct (Z.ltb_spec n 1000); [lia|].
  destruct (Z.ltb_spec n 1000000); [|lia].
  unfold JS.toFixed1, JS.fixed1_string.
  now rewrite !string_app_assoc.
Qed.

Lemma formatRatings_M (n : Z) :
  1000000 <= n < 2 ^ 53 ->
  exists t, 0 <= t /\ Z.abs (100000 * t - n) <= 50000 /\
    formatRatings n
    = "(" ++ JS.Number_toString (t / 10) ++ "."
          ++ JS.Number_toString (t mod 10) ++ "M)".
Proof.
  intros Hn. exists (JS.tenths (JS.Number_div n 1000000)).
  destruct (tenths_Number_div n 1000000) as [H0 H1];
    [lia | exists 50000; reflexivity | lia |].
  repeat split; [assumption | lia |].
  unfold formatRatings.
  destruct (Z.eqb_spec n (-1)); [lia|].
  destruct (Z.ltb_spec n 1000); [lia|].
  destruct (Z.ltb_spec n 1000000); [lia|].
  unfold JS.toFixed1, JS.fixed1_string.
  now rewrite !string_app_assoc.
Qed.

(** C6. [formatRatings] maps the count -1 to the text
    [Number 1 Top-Rated]; any other count below 1000 to the count between
    parentheses; a count from 1000 and below 1000000 to [(X.XK)], where X.X
    is a multiple of one tenth nearest to the count divided by 1000; a larger
    count (of the safe range) to [(X.XM)], where X.X is a multiple of one
    tenth nearest to the count divided by 1000000.  The four examples of the
    specification evaluate as stated. *)
Theorem formatRatings_spec :
  formatRatings (-1) = "Number 1 Top-Rated"
  /\ (forall n, n <> -1 -> n < 1000 ->
        formatRatings n = "(" ++ JS.Number_toString n ++ ")")
  /\ (forall n, 1000 <= n < 1000000 ->
        exists t, 0 <= t /\ Z.abs (100 * t - n) <= 50 /\
          formatRatings n
          = "(" ++ JS.Number_toString (t / 10) ++ "."
                ++ JS.Number_toString (t mod 10) ++ "K)")
  /\ (forall n, 1000000 <= n < 2 ^ 53 ->
        exists t, 0 <= t /\ Z.abs (100000 * t - n) <= 50000 /\
          formatRatings n
          = "(" ++ JS.Number_toString (t / 10) ++ "."
                ++ JS.Number_toString (t mod 10) ++ "M)")
  /\ formatRatings 500 = "(500)"
  /\ formatRatings 2500 = "(2.5K)"
  /\ formatRatings 3200000 = "(3.2M)".
Proof.
  split; [reflexivity|].
  split.
  { intros n H1 H2. unfold formatRatings.
    destruct (Z.eqb_spec n (-1)); [lia|].
    destruct (Z.ltb_spec n 1000); [reflexivity | lia]. }
  split; [exact formatRatings_K|].
  split; [exact formatRatings_M|].
  repeat split; vm_compute; reflexivity.
Qed.

Lemma formatRatings_spec_witness :
  formatRatings 999 = "(999)"
  /\ (exists t, 0 <= t /\ Z.abs (100 * t - 2500) <= 50 /\
        formatRatings 2500
        = "(" ++ JS.Number_toString (t / 10) ++ "."
              ++ JS.Number_toString (t mod 10) ++ "K)")
  /\ (exists t, 0 <= t /\ Z.abs (100000 * t - 3200000) <= 50000 /\
        formatRatings 3200000
        = "(" ++ JS.Number_toString (t / 10) ++ "."
              ++ JS.Number_toString (t mod 10) ++ "M)").
Proof.
  destruct formatRatings_spec as (_ & Hlow & HK & HM & _).
  split; [apply (Hlow 999); lia|].
  split; [apply (HK 2500); lia | apply (HM 3200000); lia].
Defined.

(** C10. There is a count from 1000 and below 1000000, namely 999999, that
    [formatRatings] displays as [(1000.0K)]: the branch is chosen on the raw
    count and the number displayed is the count divided by 1000 rounded to
    one decimal, here 10000 tenths.  Every count above 999950 and below
    1000000 is displayed so. *)
Theorem formatRatings_1000K :
  (exists n, 1000 <= n < 1000000 /\ formatRatings n = "(1000.0K)"
             /\ JS.tenths (JS.Number_div n 1000) = 10000)
  /\ formatRatings 999999 = "(1000.0K)"
  /\ (forall n, 999950 < n < 1000000 -> formatRatings n = "(1000.0K)").
Proof.
  split; [exists 999999; repeat split; try lia; vm_compute; reflexivity|].
  split; [vm_compute; reflexivity|].
  intros n Hn.
  destruct (formatRatings_K n ltac:(lia)) as (t & H0 & H1 & ->).
  assert (t = 10000) as -> by lia. reflexivity.
Qed.

Lemma formatRatings_1000K_witness : formatRatings 999987 = "(1000.0K)".
Proof.
  destruct formatRatings_1000K as (_ & _ & H). apply (H 999987). lia.
Defined.

(** ** CSV rows *)

Lemma includes_cons (c a : ascii) (s : string) :
  JS.includes (String a s) (String c "") = false ->
  Ascii.eqb a c = false /\ JS.includes s (String c "") = false.
Proof.
  simpl. intros H. apply orb_false_iff in H as [H1 H2].
  destruct (ascii_dec c a) as [->|Hne].
  - destruct s; discriminate.
  - split; [|destruct s; assumption].
    apply Ascii.eqb_neq. congruence.
Qed.

(** A field without comma and quote, followed by a comma, is read back as
    one field. *)
Lemma csv_fields_plain (s rest : string) :
  JS.includes s "," = false -> JS.includes s JS.DQ = false ->
  csv_fields_from false (s ++ String ","%char rest)
  = s :: csv_fields_from false rest.
Proof.
  induction s as [|a s IH]; intros Hc Hq.
  - reflexivity.
  - apply includes_cons in Hc as [Hc1 Hc2].
    apply includes_cons in Hq as [Hq1 Hq2].
    cbn [String.append csv_fields_from]. rewrite Hq1, Hc1. cbn [andb].
    rewrite (IH Hc2 Hq2). reflexivity.
Qed.

(** Inside quotes, a text whose quotes are doubled, followed by the closing
    quote and a comma, is read back as the end of one field. *)
Lemma csv_fields_quoted (s rest : string) :
  csv_fields_from true
    (JS.replace_all JS.dquote (JS.DQ ++ JS.DQ) s
       ++ String JS.dquote (String ","%char rest))
  = (JS.replace_all JS.dquote (JS.DQ ++ JS.DQ) s ++ JS.DQ)
      :: csv_fields_from false rest.
Proof.
  induction s as [|a s IH].
  - cbn. reflexivity.
  - cbn [JS.replace_all]. destruct (Ascii.eqb a JS.dquote) eqn:E.
    + change (JS.DQ ++ JS.DQ)
        with (String JS.dquote (String JS.dquote "")) at 1 3.
      cbn [String.append csv_fields_from]. rewrite Ascii.eqb_refl.
      cbn [negb]. rewrite IH. reflexivity.
    + cbn [String.append csv_fields_from]. rewrite E.
      replace (Ascii.eqb a ","%char && negb true) with false
        by (now rewrite andb_false_r).
      rewrite IH. reflexivity.
Qed.

(** The title, the one field [productToCsvRow] escapes, is always read back
    as exactly one field, whatever it contains. *)
Lemma escapeCsvField_one_field (field rest : string) :
  csv_fields (escapeCsvField field ++ "," ++ rest)
  = escapeCsvField field :: csv_fields rest.
Proof.
  unfold csv_fields, escapeCsvField.
  change ("," ++ rest) with (String ","%char rest).
  destruct (JS.includes field ",") eqn:Hc; cbn [orb].
  2: destruct (JS.includes field JS.DQ) eqn:Hq; cbn [orb].
  3: destruct (JS.includes field JS.LF) eqn:Hl.
  4: now apply csv_fields_plain.
  all: rewrite !string_app_assoc;
    change (JS.DQ ++ String ","%char rest)
      with (String JS.dquote (String ","%char rest));
    change (JS.DQ ++ ?x) with (String JS.dquote x);
    cbn [csv_fields_from]; rewrite Ascii.eqb_refl; cbn [negb];
    rewrite csv_fields_quoted; reflexivity.
Qed.

(** C1. The title of the specification's example is escaped as stated, and
    an escaped title is always one field of the row; but the price, which
    [productToCsvRow] does not pass to [escapeCsvField], contains a comma
    from 1000 on: the row of [phone] has the price [1,000] unquoted and
    reads back as 8 comma-separated fields, not 7. *)
Theorem productToCsvRow_price_not_escaped :
  escapeCsvField he_said
  = JS.DQ ++ "He said " ++ JS.DQ ++ JS.DQ ++ "hi" ++ JS.DQ ++ JS.DQ ++ ", ok"
      ++ JS.DQ
  /\ JS.includes (formatPrice (price phone)) "," = true
  /\ productToCsvRow phone
     = "Phone," ++ currency_prefix ++ "1,000,4,(500),u,i,Amazon"
  /\ csv_fields (productToCsvRow phone)
     = ["Phone"; currency_prefix ++ "1"; "000"; "4"; "(500)"; "u"; "i";
        "Amazon"]
  /\ List.length (csv_fields (productToCsvRow phone)) = 8%nat.
Proof. repeat split; vm_compute; reflexivity. Qed.

(** ** The pagination loop *)

Section Loop.

Context {Item : Type}.

Abbreviation Frame := (Frame Item).
Abbreviation CAP := (Z.to_nat TARGET_PRODUCTS_PER_QUERY).

Lemma extends_refl (st : Frame) : extends st st.
Proof.
  split; try reflexivity.
  - exists []. now rewrite app_nil_r.
  - exists []. now rewrite app_nil_r.
Qed.

Lemma extends_trans (a b c : Frame) : extends a b -> extends b c -> extends a c.
Proof.
  intros [A1 A2 A3 A4 [i1 A5] [e1 A6]] [B1 B2 B3 B4 [i2 B5] [e2 B6]].
  split; try congruence; try lia.
  - exists (i1 ++ i2)%list. now rewrite B5, A5, app_assoc.
  - exists (e1 ++ e2)%list. now rewrite B6, A6, app_assoc.
Qed.

Ltac run_iteration st E :=
  unfold iteration, try_catch, try_block, catch_block, bind, get, lift,
    fetch, json, throw, ret, data_results, data_pagination_nextPage, push,
    set_hasMore, incr_page, console_log, console_error, setTimeout, modify,
    emit;
  unfold next_answer in E;
  cbn [world allProducts page hasMore argv network requests trace file];
  rewrite E;
  cbn [ok status response_body negb results pagination world allProducts
       page hasMore argv network requests trace file].

Ltac solve_extends :=
  split; cbn [world allProducts page hasMore argv network requests trace
              file];
  [ reflexivity | reflexivity | reflexivity | lia
  | first [ now (exists []; rewrite app_nil_r) | eexists; reflexivity ]
  | rewrite <- ?app_assoc; eexists; reflexivity ].

(** An iteration always completes normally, issues exactly one request,
    and either clears [hasMore] or appends at least one item. *)
Lemma iteration_total (query : string) (st : Frame) :
  exists st',
    iteration query st = (Val tt, st')
    /\ extends st st'
    /\ requests (world st') = S (requests (world st))
    /\ (hasMore st' = false
        \/ (List.length (allProducts st) < List.length (allProducts st'))%nat).
Proof.
  destruct (next_answer st) as [|[[] code [| |[pag res]]]] eqn:E;
    [ | | | destruct res as [[|x xs]| |]; [ | destruct pag | | ] | | | ];
    run_iteration st E;
    (eexists; split; [reflexivity|]; split; [solve_extends|];
     split; [reflexivity|];
     cbn [world allProducts page hasMore];
     first [ left; reflexivity
           | right; rewrite length_app; simpl; lia ]).
Qed.

Lemma continuing_page_nonempty (r : fetch_result Item) (items : list Item) :
  continuing_page r = Some items -> items <> [].
Proof.
  destruct r as [|[[] code [| |[[n|] [[|x xs]| |]]]]]; cbn; try discriminate.
  destruct (not_null n); [|discriminate]. intros [= <-]. discriminate.
Qed.

Lemma iteration_continue (query : string) (st : Frame) (items : list Item) :
  continuing_page (next_answer st) = Some items ->
  exists st',
    iteration query st = (Val tt, st')
    /\ extends st st'
    /\ requests (world st') = S (requests (world st))
    /\ allProducts st' = (allProducts st ++ items)%list
    /\ hasMore st' = true
    /\ page st' = page st + 1.
Proof.
  destruct (next_answer st)
    as [|[[] code [| |[[n|] [[|x xs]| |]]]]] eqn:E; cbn; try discriminate.
  destruct (not_null n) eqn:N; [|discriminate]. intros [= <-].
  run_iteration st E.
  eexists; split; [reflexivity|]; split; [solve_extends|].
  cbn [world allProducts page hasMore requests]. now rewrite N.
Qed.

Lemma iteration_failure (query : string) (st : Frame) :
  transport_failure (next_answer st) = true ->
  exists st' e,
    iteration query st = (Val tt, st')
    /\ extends st st'
    /\ requests (world st') = S (requests (world st))
    /\ allProducts st' = allProducts st
    /\ hasMore st' = false
    /\ page st' = page st
    /\ last (trace (world st')) (Timeout 0)
       = ConsoleError ("Error fetching page " ++ JS.Number_toString (page st)
                       ++ " for query " ++ JS.DQ ++ query ++ JS.DQ ++ ":") e.
Proof.
  destruct (next_answer st) as [|[[] code [| |[pag res]]]] eqn:E; cbn;
    try discriminate; intros _; run_iteration st E;
    (eexists; eexists; split; [reflexivity|]; split; [solve_extends|];
     cbn [world allProducts page hasMore requests trace];
     repeat split; now rewrite last_last).
Qed.

Lemma iteration_without_pagination
      (query : string) (st : Frame) (items : list Item) :
  page_without_pagination (next_answer st) = Some items ->
  exists st',
    iteration query st = (Val tt, st')
    /\ extends st st'
    /\ requests (world st') = S (requests (world st))
    /\ allProducts st' = (allProducts st ++ items)%list
    /\ hasMore st' = false
    /\ last (trace (world st')) (Timeout 0)
       = ConsoleError ("Error fetching page " ++ JS.Number_toString (page st)
                       ++ " for query " ++ JS.DQ ++ query ++ JS.DQ ++ ":")
                      TypeError.
Proof.
  destruct (next_answer st)
    as [|[[] code [| |[[n|] [[|x xs]| |]]]]] eqn:E; cbn; try discriminate.
  intros [= <-]. run_iteration st E.
  eexists; split; [reflexivity|]; split; [solve_extends|].
  cbn [world allProducts page hasMore requests trace].
  repeat split. now rewrite last_last.
Qed.

(** *** The whole loop *)

Lemma while_loop_done (fuel : nat) (query : string) (st : Frame) :
  loop_condition st = false -> while_loop fuel query st = (Val tt, st).
Proof. intros H. destruct fuel; simpl; now rewrite H. Qed.

Lemma while_loop_step (fuel : nat) (query : string) (st st1 : Frame) :
  loop_condition st = true ->
  iteration query st = (Val tt, st1) ->
  while_loop (S fuel) query st = while_loop fuel query st1.
Proof.
  intros C H. simpl. rewrite C. unfold bind.
  change (try_catch (try_block query) (catch_block query) st)
    with (iteration query st).
  now rewrite H.
Qed.

Lemma loop_condition_true (st : Frame) :
  loop_condition st = true
  <-> hasMore st = true /\ (List.length (allProducts st) < CAP)%nat.
Proof.
  unfold loop_condition, length_, TARGET_PRODUCTS_PER_QUERY.
  rewrite andb_true_iff, Z.ltb_lt. intuition lia.
Qed.

Lemma loop_condition_false (st : Frame) :
  loop_condition st = false
  <-> hasMore st = false \/ (CAP <= List.length (allProducts st))%nat.
Proof.
  unfold loop_condition, length_, TARGET_PRODUCTS_PER_QUERY.
  rewrite andb_false_iff, Z.ltb_ge. intuition lia.
Qed.

(** The loop ends within as many iterations as there is room under the
    cap; it always ends normally, with its condition false. *)
Lemma while_loop_terminates (fuel : nat) (query : string) (st : Frame) :
  (CAP - List.length (allProducts st) <= fuel)%nat ->
  exists st',
    while_loop fuel query st = (Val tt, st')
    /\ loop_condition st' = false
    /\ extends st st'.
Proof.
  revert st. induction fuel as [|fuel IH]; intros st Hfuel;
    destruct (loop_condition st) eqn:C.
  - apply loop_condition_true in C. lia.
  - exists st. rewrite while_loop_done by assumption.
    auto using extends_refl.
  - destruct (iteration_total query st) as (st1 & H1 & E1 & _ & Hprog).
    rewrite (while_loop_step fuel query st st1 C H1).
    apply loop_condition_true in C.
    destruct Hprog as [Hstop | Hgrow].
    + exists st1. rewrite while_loop_done
        by (apply loop_condition_false; now left).
      split; [reflexivity|].
      split; [apply loop_condition_false; now left | assumption].
    + destruct (IH st1 ltac:(lia)) as (st' & H' & C' & E').
      exists st'. eauto using extends_trans.
  - exists st. rewrite while_loop_done by assumption.
    auto using extends_refl.
Qed.

(** More iterations than the cap allows change nothing. *)
Lemma while_loop_fuel (fuel : nat) (query : string) (st : Frame) :
  (CAP <= fuel)%nat ->
  while_loop fuel query st = while_loop CAP query st.
Proof.
  assert (G : forall f1 f2 (s : Frame),
             (CAP - List.length (allProducts s) <= f1)%nat ->
             (CAP - List.length (allProducts s) <= f2)%nat ->
             while_loop f1 query s = while_loop f2 query s).
  { induction f1 as [|f1 IH]; intros f2 s H1 H2;
      destruct (loop_condition s) eqn:C;
      try (now rewrite !while_loop_done by assumption).
    - apply loop_condition_true in C. lia.
    - destruct f2 as [|f2]; [apply loop_condition_true in C; lia|].
      destruct (iteration_total query s) as (s1 & Hs1 & _ & _ & Hprog).
      rewrite (while_loop_step f1 query s s1 C Hs1),
              (while_loop_step f2 query s s1 C Hs1).
      apply loop_condition_true in C.
      destruct Hprog as [Hstop | Hgrow].
      + now rewrite !while_loop_done
          by (apply loop_condition_false; now left).
      + apply IH; lia. }
  intros H. apply G; lia.
Qed.

Lemma fetchProducts_bounded_eq
      (fuel : nat) (query : string) (w : World Item) (st : Frame) :
  while_loop fuel query (initial_frame query w) = (Val tt, st) ->
  fetchProducts_bounded fuel query w
  = (Val (firstn CAP (allProducts st)),
     emit (ConsoleLog ("Finished fetching "
                       ++ JS.Number_toString (length_ (allProducts st))
                       ++ " products for query: " ++ JS.DQ ++ query
                       ++ JS.DQ)) (world st)).
Proof.
  intros H. unfold fetchProducts_bounded, with_locals, bind, lift,
    console_log, modify, get, ret.
  cbn [world allProducts page hasMore].
  change {| world := emit _ w; allProducts := []; page := 1;
            hasMore := true |} with (initial_frame query w).
  rewrite H. destruct st; reflexivity.
Qed.

(** [fetchProducts] always returns: the loop ends, and the value is the
    accumulator cut at the cap. *)
Lemma fetchProducts_returns (query : string) (w : World Item) :
  exists st,
    while_loop CAP query (initial_frame query w) = (Val tt, st)
    /\ loop_condition st = false
    /\ extends (initial_frame query w) st
    /\ fetchProducts query w
       = (Val (firstn CAP (allProducts st)),
          emit (ConsoleLog ("Finished fetching "
                            ++ JS.Number_toString (length_ (allProducts st))
                            ++ " products for query: " ++ JS.DQ ++ query
                            ++ JS.DQ)) (world st)).
Proof.
  destruct (while_loop_terminates CAP query (initial_frame query w))
    as (st & H & C & E); [simpl; lia|].
  exists st. split; [assumption|]. split; [assumption|].
  split; [assumption|]. now apply fetchProducts_bounded_eq.
Qed.

(** A larger bound on the iterations gives the same run. *)
Lemma fetchProducts_bounded_fuel
      (fuel : nat) (query : string) (w : World Item) :
  (CAP <= fuel)%nat ->
  fetchProducts_bounded fuel query w = fetchProducts query w.
Proof.
  intros Hfuel.
  destruct (fetchProducts_returns query w) as (st & H & _ & _ & F).
  rewrite F. apply fetchProducts_bounded_eq.
  now rewrite while_loop_fuel.
Qed.

(** *** Runs of pages *)

Lemma continuing_pages_cons
      (net : nat -> fetch_result Item) (from : nat)
      (p : list Item) (ps : list (list Item)) :
  continuing_pages net from (p :: ps) ->
  continuing_page (net from) = Some p /\ continuing_pages net (S from) ps.
Proof.
  intros H. split.
  - specialize (H 0%nat ltac:(simpl; lia)). now rewrite Nat.add_0_r in H.
  - intros i Hi. specialize (H (S i) ltac:(simpl; lia)).
    now rewrite Nat.add_succ_r in H.
Qed.

Lemma continuing_pages_length
      (net : nat -> fetch_result Item) (from : nat)
      (pages : list (list Item)) :
  continuing_pages net from pages ->
  (List.length pages <= List.length (List.concat pages))%nat.
Proof.
  revert from. induction pages as [|p ps IH]; intros from H; [simpl; lia|].
  apply continuing_pages_cons in H as [Hp Hps].
  apply continuing_page_nonempty in Hp.
  specialize (IH _ Hps). simpl. rewrite length_app.
  destruct p; [congruence | simpl; lia].
Qed.

(** While the pages continue and stay under the cap, the loop takes them
    one by one. *)
Lemma while_loop_pages (pages : list (list Item)) :
  forall (fuel : nat) (query : string) (st : Frame),
    hasMore st = true ->
    continuing_pages (network (world st)) (requests (world st)) pages ->
    (List.length (allProducts st) + List.length (List.concat pages) < CAP)%nat ->
    exists st',
      while_loop (List.length pages + fuel) query st
      = while_loop fuel query st'
      /\ extends st st'
      /\ allProducts st' = (allProducts st ++ List.concat pages)%list
      /\ hasMore st' = true
      /\ requests (world st')
         = (requests (world st) + List.length pages)%nat.
Proof.
  induction pages as [|p ps IH]; intros fuel query st Hm Hp Hlen.
  - exists st. simpl. rewrite app_nil_r, Nat.add_0_r.
    auto using extends_refl.
  - apply continuing_pages_cons in Hp as [Hp Hps].
    rewrite concat_cons, length_app in Hlen.
    destruct (iteration_continue query st p Hp)
      as (st1 & H1 & E1 & R1 & A1 & M1 & _).
    assert (C : loop_condition st = true)
      by (apply loop_condition_true; split; [assumption | lia]).
    cbn [List.length Nat.add].
    rewrite (while_loop_step _ query st st1 C H1).
    destruct (IH fuel query st1 M1) as (st' & H' & E' & A' & M' & R').
    + now rewrite (ext_network _ _ E1), R1.
    + rewrite A1, length_app. lia.
    + exists st'. split; [assumption|].
      split; [eauto using extends_trans|].
      split; [rewrite A', A1, concat_cons; now rewrite app_assoc|].
      split; [assumption | lia].
Qed.

(** The same, up to the end of [fetchProducts], when the answer after the
    pages ends the loop with the accumulator [acc]. *)
Lemma fetchProducts_after_pages
      (query : string) (w : World Item) (pages : list (list Item))
      (final : Frame -> Frame -> Prop) :
  continuing_pages (network w) (requests w) pages ->
  (List.length (List.concat pages) < CAP)%nat ->
  (forall st, hasMore st = true ->
              network (world st) = network w ->
              requests (world st) = (requests w + List.length pages)%nat ->
              exists st', iteration query st = (Val tt, st')
                          /\ hasMore st' = false
                          /\ requests (world st') = S (requests (world st))
                          /\ final st st') ->
  exists st st' w',
    allProducts st = List.concat pages
    /\ final st st'
    /\ fetchProducts query w = (Val (firstn CAP (allProducts st')), w')
    /\ requests w' = (requests w + List.length pages + 1)%nat.
Proof.
  intros Hp Hlen Hfinal.
  pose proof (continuing_pages_length _ _ _ Hp) as Hk.
  destruct (while_loop_pages pages (CAP - List.length pages) query
              (initial_frame query w) eq_refl Hp
              ltac:(unfold initial_frame; cbn [allProducts List.length Nat.add]; lia))
    as (st & H & E & A & Hm & R).
  replace (List.length pages + (CAP - List.length pages))%nat
    with CAP in H by lia.
  destruct (Hfinal st Hm) as (st' & Hit & Hm' & R' & Hf).
  { now rewrite (ext_network _ _ E). }
  { exact R. }
  assert (C : loop_condition st = true).
  { apply loop_condition_true. split; [assumption|].
    rewrite A. unfold initial_frame. cbn [allProducts app]. lia. }
  destruct (CAP - List.length pages)%nat as [|fuel] eqn:F; [lia|].
  rewrite (while_loop_step fuel query st st' C Hit) in H.
  rewrite (while_loop_done fuel query st') in H
    by (apply loop_condition_false; now left).
  exists st, st'. eexists. split; [exact A|]. split; [exact Hf|].
  split.
  - unfold fetchProducts. apply fetchProducts_bounded_eq. exact H.
  - cbn [emit requests]. rewrite R', R.
    unfold initial_frame. cbn [world emit requests]. lia.
Qed.

Lemma fetched_S (items : nat -> list Item) (from k : nat) :
  fetched items from (S k) = (items from ++ fetched items (S from) k)%list.
Proof. reflexivity. Qed.

(** When every answer is a continuing page, the loop stops at the first
    page with which the accumulator reaches the cap. *)
Lemma while_loop_all_continuing (items : nat -> list Item) (query : string) :
  forall (fuel : nat) (st : Frame) (base : nat),
    hasMore st = true ->
    (CAP - List.length (allProducts st) <= fuel)%nat ->
    (forall i, continuing_page
                 (network (world st) (requests (world st) + i)%nat)
               = Some (items (base + i)%nat)) ->
    exists k st',
      while_loop fuel query st = (Val tt, st')
      /\ extends st st'
      /\ allProducts st' = (allProducts st ++ fetched items base k)%list
      /\ requests (world st') = (requests (world st) + k)%nat
      /\ (CAP <= List.length (allProducts st'))%nat
      /\ (forall j, (j < k)%nat ->
            (List.length (allProducts st ++ fetched items base j) < CAP)%nat).
Proof.
  induction fuel as [|fuel IH]; intros st base Hm Hfuel Hnet;
    destruct (Nat.ltb_spec (List.length (allProducts st)) CAP) as [Hlt|Hge];
    try lia.
  1, 3: exists 0%nat, st;
    rewrite while_loop_done by (apply loop_condition_false; now right);
    split; [reflexivity|]; split; [apply extends_refl|];
    split; [unfold fetched; simpl; now rewrite app_nil_r|];
    split; [lia|]; split; [assumption | intros j Hj; lia].
  pose proof (Hnet 0%nat) as H0. rewrite !Nat.add_0_r in H0.
  destruct (iteration_continue query st _ H0)
    as (st1 & H1 & E1 & R1 & A1 & M1 & _).
  pose proof (continuing_page_nonempty _ _ H0) as Hne.
  assert (Hgrow : (List.length (allProducts st)
                   < List.length (allProducts st1))%nat).
  { rewrite A1, length_app. destruct (items base); [congruence|simpl; lia]. }
  assert (C : loop_condition st = true)
    by (apply loop_condition_true; split; assumption).
  rewrite (while_loop_step fuel query st st1 C H1).
  destruct (IH st1 (S base) M1 ltac:(lia))
    as (k & st' & H' & E' & A' & R' & Hcap & Hbelow).
  { intros i. rewrite (ext_network _ _ E1), R1.
    specialize (Hnet (S i)). now rewrite !Nat.add_succ_r in Hnet. }
  exists (S k), st'. split; [assumption|].
  split; [eauto using extends_trans|].
  split; [now rewrite A', A1, fetched_S, app_assoc|].
  split; [lia|]. split; [assumption|].
  intros [|j] Hj.
  - unfold fetched. simpl. now rewrite app_nil_r.
  - rewrite fetched_S, app_assoc, <- A1. apply Hbelow. lia.
Qed.

(** *** Other answers that end the loop *)

Lemma iteration_last_page (query : string) (st : Frame) (items : list Item) :
  last_page (next_answer st) = Some items ->
  exists st',
    iteration query st = (Val tt, st')
    /\ hasMore st' = false
    /\ requests (world st') = S (requests (world st))
    /\ allProducts st' = (allProducts st ++ items)%list.
Proof.
  destruct (next_answer st)
    as [|[[] code [| |[[[]|] [[|x xs]| |]]]]] eqn:E; cbn; try discriminate.
  intros [= <-]. run_iteration st E.
  eexists; split; [reflexivity|]. now cbn.
Qed.

Lemma iteration_stops_empty (query : string) (st : Frame) :
  empty_page (next_answer st) || unexpected_shape (next_answer st) = true ->
  exists st',
    iteration query st = (Val tt, st')
    /\ hasMore st' = false
    /\ requests (world st') = S (requests (world st))
    /\ allProducts st' = allProducts st.
Proof.
  destruct (next_answer st)
    as [|[[] code [| |[pag [[|x xs]| |]]]]] eqn:E; cbn; try discriminate;
    intros _; run_iteration st E;
    (eexists; split; [reflexivity|]; now cbn).
Qed.

(** *** The requests of a run *)

Lemma request_urls_app (a b : list event) :
  request_urls (a ++ b) = (request_urls a ++ request_urls b)%list.
Proof.
  induction a as [|e a IH]; [reflexivity|].
  destruct e; cbn [app request_urls]; now rewrite IH.
Qed.

Lemma file_events_app (a b : list event) :
  file_events (a ++ b) = (file_events a ++ file_events b)%list.
Proof. apply filter_app. Qed.

(** An iteration requests the current page, once, touches no file, and
    goes on only after moving to the next page with more items. *)
Lemma iteration_trace (query : string) (st : Frame) :
  exists st',
    iteration query st = (Val tt, st')
    /\ requests (world st') = S (requests (world st))
    /\ request_urls (trace (world st'))
       = (request_urls (trace (world st)) ++ [page_url query (page st)])%list
    /\ file_events (trace (world st')) = file_events (trace (world st))
    /\ (hasMore st' = true ->
        page st' = page st + 1
        /\ (List.length (allProducts st)
            < List.length (allProducts st'))%nat).
Proof.
  destruct (next_answer st) as [|[[] code [| |[pag res]]]] eqn:E;
    [ | | | destruct res as [[|x xs]| |]; [ | destruct pag | | ] | | | ];
    run_iteration st E;
    (eexists; split; [reflexivity|];
     cbn [world allProducts page hasMore requests trace];
     split; [reflexivity|];
     split; [rewrite !request_urls_app; cbn [request_urls];
             rewrite ?app_nil_r; reflexivity|];
     split; [rewrite !file_events_app; cbn; rewrite ?app_nil_r; reflexivity|];
     intros Hm;
     first [ discriminate
           | split; [reflexivity | rewrite length_app; simpl; lia] ]).
Qed.

Lemma while_loop_trace (query : string) :
  forall (fuel : nat) (st : Frame),
    (CAP - List.length (allProducts st) <= fuel)%nat ->
    exists st' n,
      while_loop fuel query st = (Val tt, st')
      /\ requests (world st') = (requests (world st) + n)%nat
      /\ (n <= CAP - List.length (allProducts st))%nat
      /\ (loop_condition st = true -> (1 <= n)%nat)
      /\ request_urls (trace (world st'))
         = (request_urls (trace (world st))
            ++ map (fun i => page_url query (page st + Z.of_nat i))
                   (seq 0 n))%list
      /\ file_events (trace (world st')) = file_events (trace (world st)).
Proof.
  induction fuel as [|fuel IH]; intros st Hfuel;
    destruct (loop_condition st) eqn:C.
  1: apply loop_condition_true in C; lia.
  1, 3: exists st, 0%nat; rewrite while_loop_done by assumption;
    split; [reflexivity|]; split; [lia|]; split; [lia|];
    split; [discriminate|]; split; [cbn; now rewrite app_nil_r | reflexivity].
  destruct (iteration_trace query st) as (st1 & H1 & R1 & U1 & F1 & Hgo).
  rewrite (while_loop_step fuel query st st1 C H1).
  apply loop_condition_true in C. destruct C as [_ Hlen].
  destruct (loop_condition st1) eqn:C1.
  - pose proof C1 as C1'. apply loop_condition_true in C1' as [Hm1 _].
    destruct (Hgo Hm1) as [Hp Hgrow].
    destruct (IH st1 ltac:(lia)) as (st' & n & H' & R' & B' & _ & U' & F').
    exists st', (S n). split; [exact H'|]. split; [lia|]. split; [lia|].
    split; [lia|]. split; [|congruence].
    rewrite U', U1, <- app_assoc. f_equal.
    cbn [seq map app]. rewrite Z.add_0_r. f_equal.
    rewrite <- seq_shift, map_map. apply map_ext. intros i.
    f_equal. rewrite Hp. lia.
  - exists st1, 1%nat. rewrite while_loop_done by assumption.
    split; [reflexivity|]. split; [lia|]. split; [lia|]. split; [lia|].
    split; [|exact F1]. rewrite U1. cbn. now rewrite Z.add_0_r.
Qed.

(** ** The claims on [fetchProducts] *)

(** C3. For every query and every behaviour of the network,
    [fetchProducts] returns a sequence of at most
    [TARGET_PRODUCTS_PER_QUERY] = 500 records: the loop ends with some
    accumulator, and the value returned is its first 500 items, cut once,
    after the loop. *)
Theorem fetchProducts_at_most_cap (query : string) (w : World Item) :
  exists products w',
    fetchProducts query w = (Val products, w')
    /\ length_ products <= TARGET_PRODUCTS_PER_QUERY
    /\ TARGET_PRODUCTS_PER_QUERY = 500
    /\ exists st,
         while_loop CAP query (initial_frame query w) = (Val tt, st)
         /\ products = firstn CAP (allProducts st).
Proof.
  destruct (fetchProducts_returns query w) as (st & H & _ & _ & F).
  eexists; eexists. split; [exact F|]. split.
  - unfold length_. pose proof (firstn_le_length CAP (allProducts st)).
    rewrite length_firstn. unfold TARGET_PRODUCTS_PER_QUERY. lia.
  - split; [reflexivity|]. exists st. now split.
Qed.

(** C4. [fetchProducts] never throws: whatever the network does, it
    returns a value.  When a transport failure (network error, status
    that is not a success, body that is not JSON) answers the request
    that follows some continuing pages, the records of those pages are
    all returned and no further request is issued. *)
Theorem fetchProducts_absorbs_failures (query : string) (w : World Item) :
  (exists products w', fetchProducts query w = (Val products, w'))
  /\ forall pages : list (list Item),
       continuing_pages (network w) (requests w) pages ->
       (List.length (List.concat pages) < CAP)%nat ->
       transport_failure (network w (requests w + List.length pages)%nat)
       = true ->
       exists w',
         fetchProducts query w = (Val (List.concat pages), w')
         /\ requests w' = (requests w + List.length pages + 1)%nat.
Proof.
  split.
  { destruct (fetchProducts_returns query w) as (st & _ & _ & _ & F).
    eauto. }
  intros pages Hp Hlen Hfail.
  destruct (fetchProducts_after_pages query w pages
              (fun st st' => allProducts st' = allProducts st) Hp Hlen)
    as (st & st' & w' & A & Hf & F & R).
  { intros st Hm Hn Hr.
    destruct (iteration_failure query st)
      as (st' & e & H & _ & R' & A' & M' & _).
    - unfold next_answer. now rewrite Hn, Hr.
    - exists st'. auto. }
  exists w'. split; [|exact R].
  rewrite F, Hf, A. now rewrite firstn_all2 by lia.
Qed.

(** C9 (amended). When a page that parses, with a non-empty [results],
    has no [pagination] to read [nextPage] from, its items are appended to
    the accumulator before the exception, which only ends the paging: the
    value returned is the first 500 items of the earlier pages followed by
    that page, hence all of them when they fit under the cap. *)
Theorem fetchProducts_page_without_pagination
        (query : string) (w : World Item) (pages : list (list Item))
        (items : list Item) :
  continuing_pages (network w) (requests w) pages ->
  (List.length (List.concat pages) < CAP)%nat ->
  page_without_pagination (network w (requests w + List.length pages)%nat)
  = Some items ->
  exists w',
    fetchProducts query w
    = (Val (firstn CAP (List.concat pages ++ items)), w')
    /\ requests w' = (requests w + List.length pages + 1)%nat
    /\ ((List.length (List.concat pages ++ items) <= CAP)%nat ->
        fetchProducts query w = (Val (List.concat pages ++ items)%list, w')).
Proof.
  intros Hp Hlen Hpage.
  destruct (fetchProducts_after_pages query w pages
              (fun st st' => allProducts st' = (allProducts st ++ items)%list)
              Hp Hlen)
    as (st & st' & w' & A & Hf & F & R).
  { intros st Hm Hn Hr.
    destruct (iteration_without_pagination query st items)
      as (st' & H & _ & R' & A' & M' & _).
    - unfold next_answer. now rewrite Hn, Hr.
    - exists st'. auto. }
  exists w'. rewrite Hf, A in F. split; [exact F|]. split; [exact R|].
  intros Hfit. now rewrite F, firstn_all2.
Qed.

(** C5. When every answer is a page with a non-empty [results] and a
    [nextPage] that is not null, [fetchProducts] issues exactly [k]
    requests, where [k] is the first number of pages whose items reach the
    cap: the count is below the cap before each of the [k] requests and at
    or above it after the last.  In any state, the loop issues no request
    (it changes nothing) once the count is at or above the cap. *)
Theorem fetchProducts_stops_at_cap
        (query : string) (w : World Item) (items : nat -> list Item) :
  (forall i, continuing_page (network w (requests w + i)%nat)
             = Some (items i)) ->
  (exists k w',
      fetchProducts query w = (Val (firstn CAP (fetched items 0 k)), w')
      /\ requests w' = (requests w + k)%nat
      /\ TARGET_PRODUCTS_PER_QUERY <= length_ (fetched items 0 k)
      /\ forall j, (j < k)%nat ->
           length_ (fetched items 0 j) < TARGET_PRODUCTS_PER_QUERY)
  /\ forall fuel (st : Frame),
       TARGET_PRODUCTS_PER_QUERY <= length_ (allProducts st) ->
       while_loop fuel query st = (Val tt, st).
Proof.
  intros Hnet. split.
  - destruct (while_loop_all_continuing items query CAP
                (initial_frame query w) 0%nat eq_refl)
      as (k & st & H & E & A & R & Hcap & Hbelow).
    { unfold initial_frame. cbn [allProducts List.length]. lia. }
    { exact Hnet. }
    exists k. eexists. split.
    + unfold fetchProducts. rewrite (fetchProducts_bounded_eq _ _ _ _ H).
      rewrite A. reflexivity.
    + split; [exact R|]. unfold length_, TARGET_PRODUCTS_PER_QUERY.
      rewrite A in Hcap. split; [exact (proj1 (Nat2Z.inj_le _ _) Hcap)|].
      intros j Hj. specialize (Hbelow j Hj).
      exact (proj1 (Nat2Z.inj_lt _ _) Hbelow).
  - intros fuel st Hst. apply while_loop_done, loop_condition_false.
    right. unfold length_, TARGET_PRODUCTS_PER_QUERY in *. lia.
Qed.

(** ** Further properties of [fetchProducts] *)

(** X8. After some continuing pages under the cap, a page with a non-empty
    [results] and a null [nextPage] is the last one requested: its items
    are appended and the value returned is the first 500 of all the items.
    In particular a null [nextPage] on the first page gives exactly one
    request. *)
Theorem fetchProducts_last_page
        (query : string) (w : World Item) (pages : list (list Item))
        (items : list Item) :
  continuing_pages (network w) (requests w) pages ->
  (List.length (List.concat pages) < CAP)%nat ->
  last_page (network w (requests w + List.length pages)%nat) = Some items ->
  exists w',
    fetchProducts query w
    = (Val (firstn CAP (List.concat pages ++ items)), w')
    /\ requests w' = (requests w + List.length pages + 1)%nat.
Proof.
  intros Hp Hlen Hlast.
  destruct (fetchProducts_after_pages query w pages
              (fun st st' => allProducts st' = (allProducts st ++ items)%list)
              Hp Hlen)
    as (st & st' & w' & A & Hf & F & R).
  { intros st Hm Hn Hr.
    destruct (iteration_last_page query st items) as (st' & H & M' & R' & A').
    - unfold next_answer. now rewrite Hn, Hr.
    - exists st'. auto. }
  exists w'. rewrite Hf, A in F. now split.
Qed.

(** X9. After some continuing pages under the cap, a page whose [results]
    is empty or absent ends the paging whatever its [nextPage]: nothing is
    appended, the items of the earlier pages are returned, no further
    request is issued. *)
Theorem fetchProducts_empty_page
        (query : string) (w : World Item) (pages : list (list Item)) :
  continuing_pages (network w) (requests w) pages ->
  (List.length (List.concat pages) < CAP)%nat ->
  empty_page (network w (requests w + List.length pages)%nat) = true ->
  exists w',
    fetchProducts query w = (Val (List.concat pages), w')
    /\ requests w' = (requests w + List.length pages + 1)%nat.
Proof.
  intros Hp Hlen He.
  destruct (fetchProducts_after_pages query w pages
              (fun st st' => allProducts st' = allProducts st) Hp Hlen)
    as (st & st' & w' & A & Hf & F & R).
  { intros st Hm Hn Hr.
    destruct (iteration_stops_empty query st) as (st' & H & M' & R' & A').
    - unfold next_answer. now rewrite Hn, Hr, He.
    - exists st'. auto. }
  exists w'. split; [|exact R].
  rewrite F, Hf, A. now rewrite firstn_all2 by lia.
Qed.

(** X10. After some continuing pages under the cap, a body that is the JSON
    [null], or whose [results] has a positive length and cannot be spread,
    makes the [try] block throw before anything is appended: the exception
    is caught, the items of the earlier pages are returned, no further
    request is issued. *)
Theorem fetchProducts_unexpected_shape
        (query : string) (w : World Item) (pages : list (list Item)) :
  continuing_pages (network w) (requests w) pages ->
  (List.length (List.concat pages) < CAP)%nat ->
  unexpected_shape (network w (requests w + List.length pages)%nat) = true ->
  exists w',
    fetchProducts query w = (Val (List.concat pages), w')
    /\ requests w' = (requests w + List.length pages + 1)%nat.
Proof.
  intros Hp Hlen He.
  destruct (fetchProducts_after_pages query w pages
              (fun st st' => allProducts st' = allProducts st) Hp Hlen)
    as (st & st' & w' & A & Hf & F & R).
  { intros st Hm Hn Hr.
    destruct (iteration_stops_empty query st) as (st' & H & M' & R' & A').
    - unfold next_answer. rewrite Hn, Hr, He. apply orb_true_r.
    - exists st'. auto. }
  exists w'. split; [|exact R].
  rewrite F, Hf, A. now rewrite firstn_all2 by lia.
Qed.

Lemma fetchProducts_trace (query : string) (w : World Item) :
  exists products w' n,
    fetchProducts query w = (Val products, w')
    /\ requests w' = (requests w + n)%nat
    /\ (1 <= n <= CAP)%nat
    /\ request_urls (trace w')
       = (request_urls (trace w)
          ++ map (fun i => page_url query (1 + Z.of_nat i)) (seq 0 n))%list
    /\ file_events (trace w') = file_events (trace w).
Proof.
  destruct (while_loop_trace query CAP (initial_frame query w))
    as (st & n & H & R & B & L & U & F).
  { unfold initial_frame. cbn [allProducts List.length]. lia. }
  unfold fetchProducts. rewrite (fetchProducts_bounded_eq _ _ _ _ H).
  eexists; eexists; exists n. split; [reflexivity|].
  unfold initial_frame in *.
  cbn [emit requests trace world allProducts page List.length] in *.
  split; [exact R|]. split; [split; [now apply L | lia]|].
  rewrite request_urls_app, file_events_app, U, F.
  rewrite request_urls_app, file_events_app. cbn.
  now rewrite !app_nil_r.
Qed.

(** X11. Whatever the network does, a call of [fetchProducts] issues at
    least one request and at most 500. *)
Theorem fetchProducts_request_bound (query : string) (w : World Item) :
  exists products w',
    fetchProducts query w = (Val products, w')
    /\ (requests w < requests w' <= requests w + 500)%nat.
Proof.
  destruct (fetchProducts_trace query w)
    as (products & w' & n & H & R & B & _).
  exists products, w'. split; [exact H|].
  change CAP with 500%nat in B. lia.
Qed.

(** X12. The URLs a call of [fetchProducts] requests are those of the
    pages 1, 2, ..., n of the query ([page_url]: the base URL, the
    percent-encoded query, the page number), in this order, each once,
    where n is the number of requests of the call. *)
Theorem fetchProducts_pages_in_order (query : string) (w : World Item) :
  exists products w',
    fetchProducts query w = (Val products, w')
    /\ request_urls (trace w')
       = (request_urls (trace w)
          ++ map (fun i => page_url query (1 + Z.of_nat i))
                 (seq 0 (requests w' - requests w)))%list.
Proof.
  destruct (fetchProducts_trace query w)
    as (products & w' & n & H & R & _ & U & _).
  exists products, w'. split; [exact H|].
  rewrite U, R. now replace (requests w + n - requests w)%nat with n by lia.
Qed.

(** X13. A call of [fetchProducts] performs no file operation and leaves
    the file, the command line and the network as they were. *)
Theorem fetchProducts_no_file_effect (query : string) (w : World Item) :
  exists products w',
    fetchProducts query w = (Val products, w')
    /\ file_events (trace w') = file_events (trace w)
    /\ file w' = file w /\ argv w' = argv w /\ network w' = network w.
Proof.
  destruct (fetchProducts_trace query w)
    as (products & w' & n & H & _ & _ & _ & F).
  destruct (fetchProducts_returns query w) as (st & _ & _ & E & H').
  rewrite H in H'. pose proof (f_equal snd H') as Hs. cbn [snd] in Hs.
  exists products, w'. split; [exact H|]. split; [exact F|].
  destruct E as [E1 E2 E3 _ _ _]. rewrite Hs. cbn [emit argv network file].
  now rewrite E1, E2, E3.
Qed.

End Loop.

(** ** Concrete runs of [fetchProducts] *)

Lemma fetchProducts_absorbs_failures_witness :
  exists w', fetchProducts "tv" fails_on_page_3 = (Val [1; 2; 3]%nat, w')
             /\ requests w' = 3%nat.
Proof.
  apply (proj2 (fetchProducts_absorbs_failures "tv" fails_on_page_3)
               [[1; 2]; [3]]%nat).
  - intros [|[|i]] Hi; [reflexivity | reflexivity | simpl in Hi; lia].
  - vm_compute. lia.
  - reflexivity.
Defined.

Lemma fetchProducts_page_without_pagination_witness :
  exists w',
    fetchProducts "tv" no_pagination_on_page_2
    = (Val (firstn 500 [1; 2; 3; 4]%nat), w')
    /\ requests w' = 2%nat
    /\ ((4 <= 500)%nat ->
        fetchProducts "tv" no_pagination_on_page_2
        = (Val [1; 2; 3; 4]%nat, w')).
Proof.
  apply (fetchProducts_page_without_pagination "tv" no_pagination_on_page_2
           [[1; 2]]%nat [3; 4]%nat).
  - intros [|i] Hi; [reflexivity | simpl in Hi; lia].
  - vm_compute. lia.
  - reflexivity.
Defined.

(** C9, as stated, fails: the page parses, has 501 items and no
    [pagination]; the item 500 of that page is not in the sequence
    returned, which is cut at the cap. *)
Lemma page_without_pagination_counterexample :
  page_without_pagination (network oversized_page 0) = Some (seq 0 501)
  /\ In 500%nat (seq 0 501)
  /\ fst (fetchProducts "tv" oversized_page) = Val (seq 0 500)
  /\ ~ In 500%nat (seq 0 500).
Proof.
  split; [reflexivity|].
  split; [apply in_seq; lia|].
  split; [vm_compute; reflexivity|].
  rewrite in_seq. lia.
Qed.

Lemma fetchProducts_stops_at_cap_witness :
  exists k w',
    fetchProducts "tv" endless_pages
    = (Val (firstn 500 (fetched (fun _ => repeat 7%nat 200) 0 k)), w')
    /\ requests w' = (0 + k)%nat
    /\ 500 <= length_ (fetched (fun _ => repeat 7%nat 200) 0 k)
    /\ forall j, (j < k)%nat ->
         length_ (fetched (fun _ => repeat 7%nat 200) 0 j) < 500.
Proof.
  apply (proj1 (fetchProducts_stops_at_cap "tv" endless_pages
                  (fun _ => repeat 7%nat 200)
                  (fun i => eq_refl))).
Defined.

Example endless_pages_three_requests :
  requests (snd (fetchProducts "tv" endless_pages)) = 3%nat.
Proof. vm_compute. reflexivity. Qed.

(** ** [main] and the script *)

Lemma fetchProducts_world {Item} (query : string) (w : World Item) :
  exists products w',
    fetchProducts query w = (Val products, w')
    /\ argv w' = argv w /\ network w' = network w /\ file w' = file w.
Proof.
  destruct (fetchProducts_returns query w) as (st & _ & _ & E & F).
  eexists; eexists. split; [exact F|].
  destruct E as [E1 E2 E3 _ _ _]. cbn [emit argv network file].
  now rewrite E1, E2, E3.
Qed.

(** The [for] loop of [main] returns the products of all queries and leaves
    the command line and the file as they were. *)
Lemma for_each_query_returns (queries : list string) :
  forall (acc : list SearchItem) (w : World SearchItem),
  exists products w',
    for_each_query queries acc w = (Val products, w')
    /\ argv w' = argv w /\ file w' = file w.
Proof.
  induction queries as [|q qs IH]; intros acc w.
  - exists acc, w. now split.
  - destruct (fetchProducts_world q w) as (ps & w1 & H1 & A1 & _ & F1).
    destruct (IH (acc ++ ps)%list w1) as (products & w' & H' & A' & F').
    exists products, w'. cbn [for_each_query]. unfold bind. rewrite H1.
    split; [exact H'|]. split; congruence.
Qed.

Lemma read_existing_kept (w : World SearchItem) :
  exists w',
    read_existing w = (Val (kept_content (file w)), w')
    /\ file w' = file w /\ argv w' = argv w.
Proof.
  unfold read_existing, try_catch, bind, file_exists, file_text, ret,
    kept_content, separator, emit.
  cbn [file argv].
  destruct (file w) as [[old|] [] wr];
    cbn [content readable file argv network requests trace];
    try destruct (negb (String.eqb (JS.utf8_text old) "")
                  && negb (JS.endsWith (JS.utf8_text old) JS.LF));
    rewrite ?string_app_nil_r;
    eexists; (split; [reflexivity|]); cbn [file argv]; auto.
Qed.

(** [main] up to the write: with at least one query, it fetches, reads the
    file and calls [Bun.write] with [new_content]. *)
Lemma main_reaches_write (w : World SearchItem) :
  skipn 2 (argv w) <> [] ->
  exists products w1,
    for_each_query (skipn 2 (argv w)) [] w = (Val products, fst w1)
    /\ file (snd w1) = file w
    /\ main w
       = (Bun_write (new_content (file w) products) ;;
          console_log ("Successfully appended "
                       ++ JS.Number_toString (length_ products)
                       ++ " products to data.csv")) (snd w1).
Proof.
  intros Hq.
  destruct (for_each_query_returns (skipn 2 (argv w)) [] w)
    as (products & w1 & H1 & A1 & F1).
  destruct (read_existing_kept
              (emit (ConsoleLog (JS.LF ++ "Writing "
                                 ++ JS.Number_toString (length_ products)
                                 ++ " products to data.csv...")) w1))
    as (w2 & H2 & F2 & A2).
  exists products, (w1, w2). cbn [fst snd].
  split; [exact H1|]. split; [cbn [emit file] in F2; congruence|].
  unfold main at 1. unfold bind at 1. unfold get at 1.
  destruct (skipn 2 (argv w)) as [|q qs] eqn:Q; [contradiction|].
  unfold bind at 1.
  replace (Z.of_nat (List.length (q :: qs)) =? 0) with false
    by (symmetry; apply Z.eqb_neq; simpl; lia).
  unfold ret at 1. unfold bind at 1. rewrite H1.
  unfold bind at 1. unfold console_log at 1, modify at 1.
  unfold bind at 1. rewrite H2.
  unfold new_content. cbn [emit file]. now rewrite F1.
Qed.

(** C8. With no query on the command line, the script logs the usage and
    the example and exits with status 1: it has issued no request and the
    file is the one it found, never read nor written (the two log lines are
    the only events of the run). *)
Theorem main_without_queries (w : World SearchItem) :
  skipn 2 (argv w) = [] ->
  exists w',
    run w = (Status 1, w')
    /\ abnormal (fst (run w))
    /\ trace w'
       = (trace w ++ [ConsoleLog "Usage: bun index.ts <query1> <query2> ...";
                      ConsoleLog "Example: bun index.ts samsung iphone oneplus"])%list
    /\ requests w' = requests w
    /\ file w' = file w.
Proof.
  intros Hq.
  assert (R : run w
              = (Status 1,
                 emit (ConsoleLog "Example: bun index.ts samsung iphone oneplus")
                   (emit (ConsoleLog "Usage: bun index.ts <query1> <query2> ...")
                      w))).
  { unfold run, script, try_catch, main, bind, get. rewrite Hq. reflexivity. }
  eexists. split; [exact R|]. rewrite R. cbn [fst abnormal emit trace requests file].
  split; [discriminate|]. split; [now rewrite <- app_assoc|]. now split.
Qed.

Lemma main_without_queries_witness :
  exists w',
    run (world_of [] (fun _ => FetchRejects) no_file) = (Status 1, w')
    /\ abnormal (fst (run (world_of [] (fun _ => FetchRejects) no_file)))
    /\ trace w'
       = ([] ++ [ConsoleLog "Usage: bun index.ts <query1> <query2> ...";
                 ConsoleLog "Example: bun index.ts samsung iphone oneplus"])%list
    /\ requests w' = 0%nat
    /\ file w' = no_file.
Proof.
  apply (main_without_queries (world_of [] (fun _ => FetchRejects) no_file)).
  reflexivity.
Defined.


(** C2 (amended). When the final write fails, [main] does not handle the
    exception, but the script does: the [catch] attached to [main()] passes
    it to [console.error], and the process ends normally, with status 0. *)
Theorem write_failure_is_logged (w : World SearchItem) :
  skipn 2 (argv w) <> [] ->
  writable (file w) = false ->
  exists w1 w',
    main w = (Throw FileWriteError, w1)
    /\ run w = (Status 0, w')
    /\ ~ abnormal (fst (run w))
    /\ trace w' = (trace w1 ++ [ConsoleError "" FileWriteError])%list.
Proof.
  intros Hq Hw.
  destruct (main_reaches_write w Hq) as (products & [w0 w2] & H1 & F2 & Hm).
  cbn [fst snd] in *.
  assert (M : main w
              = (Throw FileWriteError,
                 emit (FileWrite (new_content (file w) products)) w2)).
  { rewrite Hm. unfold bind, Bun_write. now rewrite F2, Hw. }
  assert (R : run w
              = (Status 0,
                 emit (ConsoleError "" FileWriteError)
                   (emit (FileWrite (new_content (file w) products)) w2))).
  { unfold run, script, try_catch. rewrite M. reflexivity. }
  eexists; eexists. split; [exact M|]. split; [exact R|].
  rewrite R. cbn [fst abnormal]. split; [intros H; now apply H | reflexivity].
Qed.

(** ** Concrete runs of the script *)



Lemma write_failure_is_logged_witness :
  exists w1 w',
    main read_only_run = (Throw FileWriteError, w1)
    /\ run read_only_run = (Status 0, w')
    /\ ~ abnormal (fst (run read_only_run))
    /\ trace w' = (trace w1 ++ [ConsoleError "" FileWriteError])%list.
Proof.
  apply (write_failure_is_logged read_only_run);
    [cbn; discriminate | reflexivity].
Defined.

(** C2, as stated, fails: the write fails, and the process ends with
    status 0 after the error went to [console.error]; nothing is left
    uncaught. *)
Lemma write_failure_counterexample :
  writable (file read_only_run) = false
  /\ fst (main read_only_run) = Throw FileWriteError
  /\ fst (run read_only_run) = Status 0
  /\ last (trace (snd (run read_only_run))) (Timeout 0)
     = ConsoleError "" FileWriteError
  /\ ~ abnormal (fst (run read_only_run)).
Proof.
  split; [reflexivity|]. split; [vm_compute; reflexivity|].
  split; [vm_compute; reflexivity|]. split; [vm_compute; reflexivity|].
  intros H. vm_compute in H. now apply H.
Qed.

(** * Further properties *)

(** ** Digits *)

Lemma csv_safe_app (a b : string) :
  csv_safe (a ++ b) = csv_safe a && csv_safe b.
Proof.
  induction a as [|c a IH]; simpl; [reflexivity|].
  now rewrite IH, andb_assoc.
Qed.

Lemma csv_safe_includes (s : string) :
  csv_safe s = true ->
  JS.includes s "," = false /\ JS.includes s JS.DQ = false
  /\ JS.includes s JS.LF = false.
Proof.
  induction s as [|c s IH]; [now cbn|].
  cbn [csv_safe]. unfold plain_char. rewrite !andb_true_iff, !negb_true_iff.
  intros [[[H1 H2] H3] Hs]. destruct (IH Hs) as (I1 & I2 & I3).
  assert (P : forall x, Ascii.eqb c x = false ->
                        JS.includes s (String x "") = false ->
                        JS.includes (String c s) (String x "") = false).
  { intros x Hx Hi. cbn. destruct (ascii_dec x c) as [->|_].
    - now rewrite Ascii.eqb_refl in Hx.
    - destruct s; exact Hi. }
  repeat split; apply P; assumption.
Qed.

Lemma csv_safe_escape (s : string) :
  csv_safe s = true -> escapeCsvField s = s.
Proof.
  intros H. destruct (csv_safe_includes s H) as (H1 & H2 & H3).
  unfold escapeCsvField. now rewrite H1, H2, H3.
Qed.

Lemma string_of_uint_safe (d : Decimal.uint) :
  csv_safe (NilEmpty.string_of_uint d) = true.
Proof. induction d; cbn; auto. Qed.

Lemma Number_toString_safe (n : Z) : csv_safe (JS.Number_toString n) = true.
Proof.
  unfold JS.Number_toString. destruct (Z.to_int n); cbn;
    apply string_of_uint_safe.
Qed.

Lemma of_lu_lt (d : Decimal.uint) :
  (Unsigned.of_lu d < 10 ^ Unsigned.usize d)%N.
Proof.
  induction d; cbn [Unsigned.of_lu Unsigned.usize];
    rewrite ?N.pow_succ_r'; [simpl|..]; lia.
Qed.

Lemma usize_revapp (d d' : Decimal.uint) :
  Unsigned.usize (Decimal.revapp d d')
  = (Unsigned.usize d + Unsigned.usize d')%N.
Proof.
  revert d'. induction d; intros d'; cbn [Decimal.revapp Unsigned.usize];
    rewrite ?IHd; cbn [Unsigned.usize]; lia.
Qed.

Lemma length_string_of_uint (d : Decimal.uint) :
  N.of_nat (String.length (NilEmpty.string_of_uint d)) = Unsigned.usize d.
Proof.
  induction d; cbn [NilEmpty.string_of_uint String.length Unsigned.usize];
    rewrite ?Nat2N.inj_succ, ?IHd; reflexivity.
Qed.

(** A number from 1000 on has at least four digits. *)
Lemma Number_toString_length (n : Z) :
  1000 <= n -> (4 <= String.length (JS.Number_toString n))%nat.
Proof.
  intros Hn. destruct n as [|p|p]; try lia.
  unfold JS.Number_toString. cbn [Z.to_int NilEmpty.string_of_int].
  pose proof (Unsigned.of_to p) as Hp.
  rewrite Unsigned.of_uint_alt in Hp.
  pose proof (of_lu_lt (Decimal.rev (Pos.to_uint p))) as Hlt.
  unfold Decimal.rev in Hlt at 2. rewrite usize_revapp in Hlt.
  cbn [Unsigned.usize] in Hlt. rewrite N.add_0_r in Hlt.
  rewrite <- length_string_of_uint in Hlt. rewrite Hp in Hlt.
  destruct (Nat.le_gt_cases 4
              (String.length (NilEmpty.string_of_uint (Pos.to_uint p))))
    as [H|H]; [exact H|].
  exfalso.
  assert (10 ^ N.of_nat (String.length
                           (NilEmpty.string_of_uint (Pos.to_uint p)))
          <= 10 ^ 3)%N by (apply N.pow_le_mono_r; lia).
  change (10 ^ 3)%N with 1000%N in *. lia.
Qed.

(** ** [formatPrice] *)

Lemma length_list_ascii_of_string (s : string) :
  List.length (list_ascii_of_string s) = String.length s.
Proof. induction s; simpl; congruence. Qed.

Lemma includes_In (c : ascii) (s : string) :
  In c (list_ascii_of_string s) -> JS.includes s (String c "") = true.
Proof.
  induction s as [|a s IH]; [intros []|].
  intros [->|H]; cbn.
  - destruct (ascii_dec c c); [|congruence]. now destruct s.
  - rewrite (IH H). apply orb_true_r.
Qed.

Lemma group_enIN_comma (digits : string) :
  (4 <= String.length digits)%nat ->
  JS.includes (JS.group_enIN digits) "," = true.
Proof.
  intros H. unfold JS.group_enIN.
  rewrite <- length_list_ascii_of_string, <- length_rev in H.
  destruct (rev (list_ascii_of_string digits)) as [|a [|b [|c [|d rest]]]];
    simpl in H; try lia.
  apply includes_In. rewrite list_ascii_of_string_of_list_ascii.
  apply in_rev. rewrite rev_involutive. simpl. auto.
Qed.

Lemma includes_app_r (a b needle : string) :
  JS.includes b needle = true -> JS.includes (a ++ b) needle = true.
Proof.
  intros H. induction a as [|c a IH]; [exact H|].
  cbn. rewrite IH. apply orb_true_r.
Qed.


Lemma replace_all_app (c : ascii) (by_ a b : string) :
  JS.replace_all c by_ (a ++ b)
  = JS.replace_all c by_ a ++ JS.replace_all c by_ b.
Proof.
  induction a as [|x a IH]; [reflexivity|].
  cbn [String.append JS.replace_all]. now rewrite IH, string_app_assoc.
Qed.

Lemma replace_all_filter (l : list ascii) :
  JS.replace_all ","%char "" (string_of_list_ascii l)
  = string_of_list_ascii (filter not_comma l).
Proof.
  induction l as [|x l IH]; [reflexivity|].
  cbn [string_of_list_ascii JS.replace_all filter]. unfold not_comma at 1.
  destruct (Ascii.eqb x ","%char); cbn; now rewrite IH.
Qed.

Lemma replace_all_safe (s : string) :
  csv_safe s = true -> JS.replace_all ","%char "" s = s.
Proof.
  induction s as [|x s IH]; [reflexivity|].
  cbn [csv_safe JS.replace_all]. unfold plain_char.
  rewrite !andb_true_iff, !negb_true_iff. intros [[[H _] _] Hs].
  now rewrite H, IH.
Qed.

Lemma filter_group_pairs (fuel : nat) (l : list ascii) :
  filter not_comma (JS.group_pairs fuel l) = filter not_comma l.
Proof.
  revert l. induction fuel as [|fuel IH]; intros l; [reflexivity|].
  destruct l as [|a [|b [|c rest]]]; try reflexivity.
  cbn [JS.group_pairs]. change (a :: b :: ","%char :: ?t)
    with ([a; b] ++ ","%char :: t)%list.
  change (a :: b :: c :: rest) with ([a; b] ++ c :: rest)%list.
  rewrite !filter_app. f_equal. cbn [filter not_comma Ascii.eqb].
  change (not_comma ","%char) with false. cbv iota. apply IH.
Qed.

(** The grouping only inserts commas. *)
Lemma group_enIN_digits (digits : string) :
  JS.replace_all ","%char "" (JS.group_enIN digits)
  = JS.replace_all ","%char "" digits.
Proof.
  unfold JS.group_enIN.
  destruct (rev (list_ascii_of_string digits))
    as [|a [|b [|c [|d rest]]]] eqn:E; try reflexivity.
  rewrite replace_all_filter.
  rewrite <- (string_of_list_ascii_of_string digits).
  rewrite replace_all_filter. f_equal.
  rewrite <- (rev_involutive (list_ascii_of_string digits)), E.
  rewrite !filter_rev. f_equal.
  change (a :: b :: c :: ","%char :: ?t)
    with ([a; b; c] ++ ","%char :: t)%list.
  change (a :: b :: c :: d :: rest) with ([a; b; c] ++ d :: rest)%list.
  rewrite !filter_app. f_equal.
  cbn [filter]. change (not_comma ","%char) with false. cbv iota.
  apply filter_group_pairs.
Qed.

Lemma Number_toString_neg (n : Z) :
  n < 0 -> JS.Number_toString n = "-" ++ JS.Number_toString (- n).
Proof. intros H. destruct n; try lia. reflexivity. Qed.

Lemma toLocaleString_enIN_digits (n : Z) :
  JS.replace_all ","%char "" (JS.toLocaleString_enIN n) = JS.Number_toString n.
Proof.
  unfold JS.toLocaleString_enIN. destruct (Z.ltb_spec n 0) as [H|H].
  - rewrite replace_all_app, group_enIN_digits.
    rewrite (replace_all_safe _ (Number_toString_safe (- n))).
    now rewrite (Number_toString_neg n H).
  - rewrite group_enIN_digits. apply replace_all_safe, Number_toString_safe.
Qed.

(** X2. Removing the commas from a formatted price leaves the currency
    prefix followed by the decimal digits of the price: the grouping of
    [toLocaleString] adds commas and nothing else. *)
Theorem formatPrice_digits (price : Z) :
  JS.replace_all ","%char "" (formatPrice price)
  = currency_prefix ++ JS.Number_toString price.
Proof.
  unfold formatPrice. rewrite replace_all_app, toLocaleString_enIN_digits.
  f_equal.
Qed.

Lemma small_numbers_ungrouped (n : Z) :
  0 <= n < 1000 -> JS.toLocaleString_enIN n = JS.Number_toString n.
Proof.
  intros Hn.
  assert (C : forallb (fun k => String.eqb
                                  (JS.toLocaleString_enIN (Z.of_nat k))
                                  (JS.Number_toString (Z.of_nat k)))
                      (seq 0 1000) = true) by (vm_compute; reflexivity).
  rewrite forallb_forall in C.
  specialize (C (Z.to_nat n)). rewrite Z2Nat.id in C by lia.
  apply String.eqb_eq, C, in_seq. lia.
Qed.

Lemma formatPrice_small_safe (price : Z) :
  0 <= price < 1000 -> csv_safe (formatPrice price) = true.
Proof.
  intros H. unfold formatPrice. rewrite (small_numbers_ungrouped _ H).
  rewrite csv_safe_app, Number_toString_safe. reflexivity.
Qed.

(** X1. An integer price of 1000 or more in absolute value is formatted
    with at least one comma; an integer price from 0 and below 1000 is
    formatted as the currency prefix followed by its digits, without comma,
    quote or line feed. *)
Theorem formatPrice_comma (price : Z) :
  (1000 <= Z.abs price -> JS.includes (formatPrice price) "," = true)
  /\ (0 <= price < 1000 ->
      formatPrice price = currency_prefix ++ JS.Number_toString price
      /\ csv_safe (formatPrice price) = true).
Proof.
  split.
  - intros H. unfold formatPrice. apply includes_app_r.
    unfold JS.toLocaleString_enIN. destruct (Z.ltb_spec price 0) as [Hn|Hn].
    + apply includes_app_r, group_enIN_comma, Number_toString_length. lia.
    + apply group_enIN_comma, Number_toString_length. lia.
  - intros H. unfold formatPrice. rewrite (small_numbers_ungrouped _ H).
    split; [reflexivity|].
    rewrite csv_safe_app, Number_toString_safe. reflexivity.
Qed.

Lemma formatPrice_comma_witness :
  JS.includes (formatPrice 125000) "," = true
  /\ formatPrice 999 = currency_prefix ++ JS.Number_toString 999
  /\ csv_safe (formatPrice 999) = true.
Proof.
  split.
  - apply (proj1 (formatPrice_comma 125000)). simpl. lia.
  - apply (proj2 (formatPrice_comma 999)). lia.
Defined.

(** ** [formatRatings] *)

Lemma fixed1_string_safe (t : Z) : csv_safe (JS.fixed1_string t) = true.
Proof.
  unfold JS.fixed1_string.
  now rewrite !csv_safe_app, !Number_toString_safe.
Qed.

Lemma formatRatings_safe (totalRatings : Z) :
  csv_safe (formatRatings totalRatings) = true.
Proof.
  unfold formatRatings, JS.toFixed1.
  destruct (_ =? _); [reflexivity|].
  destruct (_ <? _);
    [now rewrite !csv_safe_app, Number_toString_safe|].
  destruct (_ <? _); now rewrite !csv_safe_app, fixed1_string_safe.
Qed.

(** X3. Whatever the count, the text of [formatRatings] holds no comma, no
    double quote and no line feed: written unescaped, as [productToCsvRow]
    does, it is one CSV field, and escaping would leave it as it is. *)
Theorem formatRatings_csv_safe (totalRatings : Z) :
  csv_safe (formatRatings totalRatings) = true
  /\ JS.includes (formatRatings totalRatings) "," = false
  /\ escapeCsvField (formatRatings totalRatings) = formatRatings totalRatings.
Proof.
  pose proof (formatRatings_safe totalRatings) as H.
  split; [exact H|]. split; [apply csv_safe_includes, H|].
  apply csv_safe_escape, H.
Qed.

(** X4. Away from the exact ties, the tenths [formatRatings] displays are
    the count divided by 100 (by 100000 in the M form) rounded to the
    nearest integer: the binary64 division does not disturb them.  At a tie
    the direction depends on the binary64 quotient: 1250 goes up to 1.3,
    1450 down to 1.4. *)
Theorem formatRatings_rounds_to_nearest :
  (forall n, 1000 <= n < 1000000 -> n mod 100 <> 50 ->
     formatRatings n = "(" ++ JS.fixed1_string ((n + 50) / 100) ++ "K)")
  /\ (forall n, 1000000 <= n < 2 ^ 53 -> n mod 100000 <> 50000 ->
        formatRatings n = "(" ++ JS.fixed1_string ((n + 50000) / 100000) ++ "M)")
  /\ formatRatings 1250 = "(1.3K)" /\ formatRatings 1450 = "(1.4K)".
Proof.
  split; [|split; [|split; vm_compute; reflexivity]].
  - intros n Hn Htie.
    destruct (formatRatings_K n Hn) as (t & H0 & H1 & ->).
    assert ((n + 50) / 100 = t) as ->.
    { symmetry. apply (Z.div_unique (n + 50) 100 t (n + 50 - 100 * t)); [|lia].
      pose proof (Z.div_mod n 100 ltac:(lia)).
      pose proof (Z.mod_pos_bound n 100 ltac:(lia)). lia. }
    unfold JS.fixed1_string. now rewrite !string_app_assoc.
  - intros n Hn Htie.
    destruct (formatRatings_M n Hn) as (t & H0 & H1 & ->).
    assert ((n + 50000) / 100000 = t) as ->.
    { symmetry.
      apply (Z.div_unique (n + 50000) 100000 t (n + 50000 - 100000 * t));
        [|lia].
      pose proof (Z.div_mod n 100000 ltac:(lia)).
      pose proof (Z.mod_pos_bound n 100000 ltac:(lia)). lia. }
    unfold JS.fixed1_string. now rewrite !string_app_assoc.
Qed.

Lemma formatRatings_rounds_to_nearest_witness :
  formatRatings 12349 = "(" ++ JS.fixed1_string ((12349 + 50) / 100) ++ "K)"
  /\ formatRatings 7654321
     = "(" ++ JS.fixed1_string ((7654321 + 50000) / 100000) ++ "M)".
Proof.
  destruct formatRatings_rounds_to_nearest as (HK & HM & _).
  split; [apply (HK 12349) | apply (HM 7654321)];
    try lia; vm_compute; congruence.
Defined.

(** ** [escapeCsvField] and [productToCsvRow] *)

Lemma csv_unquote_from_escaped (s : string) :
  csv_unquote_from (JS.replace_all JS.dquote (JS.DQ ++ JS.DQ) s ++ JS.DQ) = s.
Proof.
  induction s as [|a s IH]; [reflexivity|].
  cbn [JS.replace_all]. destruct (Ascii.eqb a JS.dquote) eqn:E.
  - apply Ascii.eqb_eq in E. subst a.
    change (JS.DQ ++ JS.DQ)
      with (String JS.dquote (String JS.dquote "")) at 1.
    cbn [String.append csv_unquote_from]. rewrite Ascii.eqb_refl.
    now rewrite IH.
  - cbn [String.append csv_unquote_from]. rewrite E. now rewrite IH.
Qed.

Lemma csv_unquote_escapeCsvField (field : string) :
  csv_unquote (escapeCsvField field) = field.
Proof.
  unfold escapeCsvField.
  destruct (JS.includes field "," || JS.includes field JS.DQ
            || JS.includes field JS.LF) eqn:E.
  - change (JS.DQ ++ ?x) with (String JS.dquote x).
    cbn [csv_unquote]. rewrite Ascii.eqb_refl.
    apply csv_unquote_from_escaped.
  - apply orb_false_iff in E as [E _]. apply orb_false_iff in E as [_ E].
    destruct field as [|c rest]; [reflexivity|].
    apply includes_cons in E as [E _]. cbn [csv_unquote]. now rewrite E.
Qed.

(** X5. Reading an escaped field back gives the field, so two fields with
    the same escaped text are the same field: the quotes [escapeCsvField]
    adds and doubles are the ones a CSV reader removes. *)
Theorem escapeCsvField_round_trip :
  (forall field, csv_unquote (escapeCsvField field) = field)
  /\ (forall a b, escapeCsvField a = escapeCsvField b -> a = b).
Proof.
  split; [exact csv_unquote_escapeCsvField|].
  intros a b H.
  rewrite <- (csv_unquote_escapeCsvField a), <- (csv_unquote_escapeCsvField b).
  now rewrite H.
Qed.

Lemma escapeCsvField_round_trip_witness :
  csv_unquote (escapeCsvField he_said) = he_said /\ he_said = he_said.
Proof.
  split.
  - apply (proj1 escapeCsvField_round_trip).
  - apply (proj2 escapeCsvField_round_trip he_said he_said). reflexivity.
Defined.

Lemma includes_safe (s : string) :
  JS.includes s "," = false -> JS.includes s JS.DQ = false ->
  JS.includes s JS.LF = false -> csv_safe s = true.
Proof.
  induction s as [|a s IH]; [reflexivity|]. intros Hc Hq Hl.
  apply includes_cons in Hc as [Hc1 Hc2].
  apply includes_cons in Hq as [Hq1 Hq2].
  apply includes_cons in Hl as [Hl1 Hl2].
  cbn [csv_safe]. unfold plain_char. rewrite Hc1, Hq1, Hl1. cbn.
  now apply IH.
Qed.

Lemma push_first_field (c : ascii) (s : string) (records : list (list string)) :
  push_char c (first_field s records) = first_field (String c s) records.
Proof. now destruct records. Qed.

(** A text without comma, quote and line feed, followed by a comma, is
    read back as one field of the current record. *)
Lemma csv_parse_plain (s rest : string) :
  csv_safe s = true ->
  csv_parse_from false (s ++ String ","%char rest)
  = first_field s (csv_parse_from false rest).
Proof.
  induction s as [|a s IH]; intros H; [reflexivity|].
  cbn [csv_safe] in H. unfold plain_char in H.
  rewrite !andb_true_iff, !negb_true_iff in H.
  destruct H as [[[Hc Hq] Hl] Hs].
  cbn [String.append csv_parse_from]. rewrite Hq, Hc, Hl. cbn [andb].
  now rewrite (IH Hs), push_first_field.
Qed.

(** Between quotes, a text whose quotes are doubled, followed by the
    closing quote and a comma, is read back as the end of one field: its
    commas and line feeds separate nothing. *)
Lemma csv_parse_quoted (s rest : string) :
  csv_parse_from true
    (JS.replace_all JS.dquote (JS.DQ ++ JS.DQ) s
       ++ String JS.dquote (String ","%char rest))
  = first_field (JS.replace_all JS.dquote (JS.DQ ++ JS.DQ) s ++ JS.DQ)
      (csv_parse_from false rest).
Proof.
  induction s as [|a s IH].
  - cbn. now destruct (csv_parse_from false rest).
  - cbn [JS.replace_all]. destruct (Ascii.eqb a JS.dquote) eqn:E.
    + change (JS.DQ ++ JS.DQ)
        with (String JS.dquote (String JS.dquote "")) at 1 3.
      cbn [String.append csv_parse_from]. rewrite Ascii.eqb_refl.
      cbn [negb]. now rewrite IH, !push_first_field.
    + cbn [String.append csv_parse_from]. rewrite E.
      rewrite !andb_false_r. now rewrite IH, push_first_field.
Qed.

(** An escaped field followed by a comma is read back as one field of the
    first record, whatever the field holds. *)
Lemma csv_parse_escaped (field rest : string) :
  csv_parse (escapeCsvField field ++ "," ++ rest)
  = first_field (escapeCsvField field) (csv_parse rest).
Proof.
  unfold csv_parse, escapeCsvField.
  change ("," ++ rest) with (String ","%char rest).
  destruct (JS.includes field ",") eqn:Hc; cbn [orb].
  2: destruct (JS.includes field JS.DQ) eqn:Hq; cbn [orb].
  3: destruct (JS.includes field JS.LF) eqn:Hl.
  4: now apply csv_parse_plain, includes_safe.
  all: rewrite !string_app_assoc;
    change (JS.DQ ++ String ","%char rest)
      with (String JS.dquote (String ","%char rest));
    change (JS.DQ ++ ?x) with (String JS.dquote x);
    cbn [csv_parse_from]; rewrite Ascii.eqb_refl; cbn [negb];
    rewrite csv_parse_quoted; now rewrite push_first_field.
Qed.

(** X6. Whatever the product, reading its row as CSV content (a comma
    outside quotes ends a field, a line feed outside quotes ends a record)
    gives a first record whose first field is its escaped title, and reading
    that field back gives the title: a comma, a quote or a line feed in the
    title never splits or alters it. *)
Theorem productToCsvRow_title (product : SearchItem) :
  exists fields records,
    csv_parse (productToCsvRow product)
    = (escapeCsvField (title product) :: fields) :: records
    /\ csv_unquote (escapeCsvField (title product)) = title product.
Proof.
  unfold productToCsvRow. cbv zeta. rewrite csv_parse_escaped.
  destruct (csv_parse _) as [|r rs]; cbn [first_field];
    eexists; eexists; (split; [reflexivity|]);
    apply csv_unquote_escapeCsvField.
Qed.

Lemma csv_parse_safe (s rest : string) :
  csv_safe s = true ->
  csv_parse (s ++ "," ++ rest) = first_field s (csv_parse rest).
Proof. intros H. now apply csv_parse_plain. Qed.

(** X7. A product whose price is an integer from 0 and below 1000, whose
    rating is an integer, and whose two URLs hold no comma, quote or line
    feed gives a row that reads back as one record of exactly 7 fields, in
    the order title, price, rating, ratings display, product URL, image
    URL, source, whatever the title holds. *)
Theorem productToCsvRow_seven_fields (product : SearchItem) :
  0 <= price product < 1000 ->
  csv_safe (productUrl product) = true ->
  csv_safe (small (image product)) = true ->
  csv_parse (productToCsvRow product)
  = [[escapeCsvField (title product);
      formatPrice (price product);
      JS.Number_toString (starRating product);
      formatRatings (totalRatings product);
      productUrl product;
      small (image product);
      "Amazon"]].
Proof.
  intros Hp Hu Hi. unfold productToCsvRow. cbv zeta.
  rewrite csv_parse_escaped.
  rewrite (csv_parse_safe _ _ (formatPrice_small_safe _ Hp)).
  rewrite (csv_parse_safe _ _ (Number_toString_safe _)).
  rewrite (csv_parse_safe _ _ (formatRatings_safe _)).
  rewrite (csv_parse_safe _ _ Hu), (csv_parse_safe _ _ Hi).
  reflexivity.
Qed.

Lemma productToCsvRow_seven_fields_witness :
  csv_parse (productToCsvRow earbuds)
  = [[escapeCsvField he_said; formatPrice 799; "4"; formatRatings 12349;
      "http://shop/p/1"; "http://img/1.jpg"; "Amazon"]].
Proof.
  apply (productToCsvRow_seven_fields earbuds);
    [cbn; lia | reflexivity | reflexivity].
Defined.

(** ** Concrete runs for the further properties of [fetchProducts] *)

Lemma fetchProducts_last_page_witness :
  exists w',
    fetchProducts "tv" ends_on_page_2 = (Val (firstn 500 [1; 2; 3]%nat), w')
    /\ requests w' = 2%nat.
Proof.
  apply (fetchProducts_last_page "tv" ends_on_page_2 [[1; 2]]%nat [3]%nat).
  - intros [|i] Hi; [reflexivity | simpl in Hi; lia].
  - vm_compute. lia.
  - reflexivity.
Defined.

Lemma fetchProducts_empty_page_witness :
  exists w',
    fetchProducts "tv" empty_page_2 = (Val [1; 2]%nat, w')
    /\ requests w' = 2%nat.
Proof.
  apply (fetchProducts_empty_page "tv" empty_page_2 [[1; 2]]%nat).
  - intros [|i] Hi; [reflexivity | simpl in Hi; lia].
  - vm_compute. lia.
  - reflexivity.
Defined.

Lemma fetchProducts_unexpected_shape_witness :
  exists w',
    fetchProducts "tv" null_body_page_2 = (Val [1; 2]%nat, w')
    /\ requests w' = 2%nat.
Proof.
  apply (fetchProducts_unexpected_shape "tv" null_body_page_2 [[1; 2]]%nat).
  - intros [|i] Hi; [reflexivity | simpl in Hi; lia].
  - vm_compute. lia.
  - reflexivity.
Defined.

(** ** Further properties of [main] *)

Lemma fetchProducts_summary {Item} (query : string) (w : World Item) :
  exists products w',
    fetchProducts query w = (Val products, w')
    /\ (List.length products <= 500)%nat
    /\ (requests w < requests w' <= requests w + 500)%nat
    /\ file_events (trace w') = file_events (trace w)
    /\ file w' = file w /\ argv w' = argv w.
Proof.
  destruct (fetchProducts_trace query w)
    as (products & w' & n & H & R & B & _ & F).
  destruct (fetchProducts_returns query w) as (st & _ & _ & E & H').
  rewrite H in H'.
  assert (Hp : products
               = firstn (Z.to_nat TARGET_PRODUCTS_PER_QUERY) (allProducts st))
    by congruence.
  assert (Hf : file w' = file w /\ argv w' = argv w).
  { assert (Hw : file w' = file (world st) /\ argv w' = argv (world st)).
    { pose proof (f_equal snd H') as Hs. cbn [snd] in Hs. rewrite Hs.
      now cbn [emit file argv]. }
    destruct E as [E1 _ E3 _ _ _]. destruct Hw as [-> ->].
    now rewrite E1, E3. }
  exists products, w'. split; [exact H|].
  split; [rewrite Hp, length_firstn; apply Nat.le_min_l|].
  split; [change (Z.to_nat TARGET_PRODUCTS_PER_QUERY) with 500%nat in B; lia|].
  split; [exact F | exact Hf].
Qed.

Lemma for_each_query_summary (queries : list string) :
  forall (acc : list SearchItem) (w : World SearchItem),
  exists products w',
    for_each_query queries acc w = (Val products, w')
    /\ (List.length products
        <= List.length acc + 500 * List.length queries)%nat
    /\ (requests w + List.length queries <= requests w'
        <= requests w + 500 * List.length queries)%nat
    /\ file_events (trace w') = file_events (trace w)
    /\ file w' = file w /\ argv w' = argv w.
Proof.
  induction queries as [|q qs IH]; intros acc w.
  - exists acc, w. cbn. repeat split; lia.
  - destruct (fetchProducts_summary q w)
      as (ps & w1 & H1 & L1 & R1 & E1 & F1 & A1).
    destruct (IH (acc ++ ps)%list w1)
      as (products & w' & H' & L' & R' & E' & F' & A').
    exists products, w'. cbn [for_each_query]. unfold bind. rewrite H1.
    split; [exact H'|]. rewrite length_app in L'. cbn [List.length].
    repeat split; try congruence; lia.
Qed.


Lemma read_existing_trace (w : World SearchItem) :
  exists w',
    read_existing w = (Val (kept_content (file w)), w')
    /\ file w' = file w /\ requests w' = requests w
    /\ trace w'
       = (trace w ++ FileExists
            :: match content (file w) with
               | Some _ => [FileText]
               | None => []
               end)%list.
Proof.
  unfold read_existing, try_catch, bind, file_exists, file_text, ret,
    kept_content, separator, emit.
  cbn [file argv].
  destruct (file w) as [[old|] [] wr];
    cbn [content readable file argv network requests trace];
    try destruct (negb (String.eqb (JS.utf8_text old) "")
                  && negb (JS.endsWith (JS.utf8_text old) JS.LF));
    rewrite ?string_app_nil_r;
    eexists; (split; [reflexivity|]);
    cbn [file requests trace]; rewrite <- ?app_assoc; auto.
Qed.

(** A run with at least one query: the fetching, then the events up to
    the write, then the success line or the error of the write; the status
    is 0 either way. *)
Lemma run_with_queries (w : World SearchItem) :
  skipn 2 (argv w) <> [] ->
  exists products w0 w',
    for_each_query (skipn 2 (argv w)) [] w = (Val products, w0)
    /\ run w = (Status 0, w')
    /\ requests w' = requests w0
    /\ trace w'
       = (trace w0 ++ write_events (file w) products
          ++ [final_event (file w) products])%list
    /\ content (file w')
       = (if writable (file w) then Some (new_content (file w) products)
          else content (file w)).
Proof.
  intros Hq.
  destruct (for_each_query_summary (skipn 2 (argv w)) [] w)
    as (products & w0 & H1 & _ & _ & _ & F1 & _).
  destruct (read_existing_trace
              (emit (ConsoleLog (JS.LF ++ "Writing "
                                 ++ JS.Number_toString (length_ products)
                                 ++ " products to data.csv...")) w0))
    as (w2 & H2 & F2 & R2 & T2).
  cbn [emit file requests trace] in F2, R2, T2.
  assert (M : main w
              = (Bun_write (new_content (file w) products) ;;
                 console_log ("Successfully appended "
                              ++ JS.Number_toString (length_ products)
                              ++ " products to data.csv")) w2).
  { unfold main at 1. unfold bind at 1. unfold get at 1.
    destruct (skipn 2 (argv w)) as [|q qs] eqn:Q; [contradiction|].
    unfold bind at 1.
    replace (Z.of_nat (List.length (q :: qs)) =? 0) with false
      by (symmetry; apply Z.eqb_neq; simpl; lia).
    unfold ret at 1. unfold bind at 1. rewrite H1.
    unfold bind at 1. unfold console_log at 1, modify at 1.
    unfold bind at 1. rewrite H2.
    unfold new_content. cbn [emit file]. now rewrite F1. }
  exists products, w0. unfold run, script, try_catch. rewrite M.
  unfold bind, Bun_write, console_log, console_error, modify, emit,
    write_events, final_event.
  rewrite F2, F1. destruct (writable (file w)) eqn:W;
    (eexists; split; [exact H1|]; split; [reflexivity|]);
    cbn [requests trace file content]; rewrite T2, F1, ?F2, ?F1;
    (split; [exact R2|]); (split; [|reflexivity]);
    repeat (rewrite <- app_assoc; cbn [app]); reflexivity.
Qed.

(** X14. Every run ends with an exit status, never on an uncaught
    exception: status 1 when no query is given, status 0 otherwise, whatever
    the network and the file do. *)
Theorem run_exit_status (w : World SearchItem) :
  exists w',
    run w = (Status (match skipn 2 (argv w) with [] => 1 | _ => 0 end), w').
Proof.
  destruct (skipn 2 (argv w)) as [|q qs] eqn:Q.
  - eexists. unfold run, script, try_catch, main, bind, get. rewrite Q.
    reflexivity.
  - destruct (run_with_queries w) as (products & w0 & w' & _ & R & _);
      [rewrite Q; discriminate|].
    now exists w'.
Qed.

Lemma for_each_query_acc (queries : list string) :
  forall (acc : list SearchItem) (w : World SearchItem),
  exists products w',
    for_each_query queries [] w = (Val products, w')
    /\ for_each_query queries acc w = (Val (acc ++ products)%list, w').
Proof.
  induction queries as [|q qs IH]; intros acc w.
  - exists [], w. cbn. now rewrite app_nil_r.
  - destruct (fetchProducts_summary q w) as (ps & w1 & H1 & _).
    destruct (IH ps w1) as (r1 & w' & E1 & E2).
    destruct (IH (acc ++ ps)%list w1) as (r2 & w'' & E3 & E4).
    rewrite E1 in E3. assert (r2 = r1) as -> by congruence.
    assert (w'' = w') as -> by congruence.
    exists (ps ++ r1)%list, w'. cbn [for_each_query]. unfold bind.
    rewrite H1. cbn [app]. split; [exact E2|].
    rewrite E4. now rewrite app_assoc.
Qed.

Lemma for_each_query_bounded (queries : list string) :
  forall w : World SearchItem,
  exists products w',
    for_each_query queries [] w = (Val products, w')
    /\ each_query_bounded queries w products w'.
Proof.
  induction queries as [|q qs IH]; intros w.
  - exists [], w. now cbn.
  - destruct (fetchProducts_summary q w)
      as (ps & w1 & H1 & L1 & R1 & _).
    destruct (IH w1) as (others & w' & H' & B').
    destruct (for_each_query_acc qs ps w1) as (r & w'' & E1 & E2).
    rewrite H' in E1. assert (r = others) as -> by congruence.
    assert (w'' = w') as -> by congruence.
    exists (ps ++ others)%list, w'. split.
    + cbn [for_each_query]. unfold bind. rewrite H1. exact E2.
    + cbn [each_query_bounded]. exists ps, w1, others. auto.
Qed.

(** X15. The loop of [main] is, for each query in the order of the command
    line, one call of [fetchProducts] from the world the previous call
    left; each call returns at most 500 products, hence at most 500 rows per
    query, and issues at least one request and at most 500. *)
Theorem main_bounds (w : World SearchItem) :
  exists products w0,
    for_each_query (skipn 2 (argv w)) [] w = (Val products, w0)
    /\ each_query_bounded (skipn 2 (argv w)) w products w0
    /\ (List.length (map productToCsvRow products)
        <= 500 * List.length (skipn 2 (argv w)))%nat
    /\ (requests w + List.length (skipn 2 (argv w)) <= requests w0
        <= requests w + 500 * List.length (skipn 2 (argv w)))%nat.
Proof.
  destruct (for_each_query_bounded (skipn 2 (argv w)) w)
    as (products & w0 & H & B).
  destruct (for_each_query_summary (skipn 2 (argv w)) [] w)
    as (products' & w0' & H' & L & R & _).
  rewrite H in H'. assert (products' = products) as -> by congruence.
  assert (w0' = w0) as -> by congruence.
  exists products, w0. split; [exact H|]. split; [exact B|].
  rewrite length_map. cbn [List.length] in L. split; [lia | exact R].
Qed.

(** X16. On a run with at least one query whose items all have the shape
    [SearchItem], so that every row can be built, the file is touched only
    after all the fetching, and once: no file operation happens while the
    queries are fetched, then the file is tested for existence, read when it
    exists, and written once with the content [new_content] (the kept text
    of the prior content, then the new rows); no request follows. *)
Theorem main_file_operations (w : World SearchItem) :
  skipn 2 (argv w) <> [] ->
  exists products w0 tail,
    for_each_query (skipn 2 (argv w)) [] w = (Val products, w0)
    /\ fst (run w) = Status 0
    /\ trace (snd (run w)) = (trace w0 ++ tail)%list
    /\ file_events (trace w0) = file_events (trace w)
    /\ request_urls tail = []
    /\ file_events tail
       = (FileExists
            :: match content (file w) with
               | Some _ => [FileText]
               | None => []
               end
            ++ [FileWrite (new_content (file w) products)])%list.
Proof.
  intros Hq.
  destruct (run_with_queries w Hq) as (products & w0 & w' & H & R & _ & T & _).
  destruct (for_each_query_summary (skipn 2 (argv w)) [] w)
    as (products' & w0' & H' & _ & _ & E & _).
  rewrite H in H'. assert (w0' = w0) as -> by congruence.
  exists products, w0. eexists. rewrite R. cbn [fst snd].
  split; [exact H|]. split; [reflexivity|]. split; [exact T|].
  split; [exact E|]. unfold write_events, final_event.
  destruct (content (file w)), (writable (file w)); cbn; auto.
Qed.

Lemma main_file_operations_witness :
  exists products w0 tail,
    for_each_query (skipn 2 (argv appending_run)) [] appending_run
    = (Val products, w0)
    /\ fst (run appending_run) = Status 0
    /\ trace (snd (run appending_run)) = (trace w0 ++ tail)%list
    /\ file_events (trace w0) = file_events (trace appending_run)
    /\ request_urls tail = []
    /\ file_events tail
       = (FileExists
            :: match content (file appending_run) with
               | Some _ => [FileText]
               | None => []
               end
            ++ [FileWrite (new_content (file appending_run) products)])%list.
Proof.
  apply (main_file_operations appending_run). cbn. discriminate.
Defined.


(** X18. The queries are fetched one after the other, in the order of the
    command line, each from the world the previous one left, and their
    products are concatenated in that order. *)
Theorem main_query_order
        (query : string) (queries : list string) (w : World SearchItem) :
  exists first w1 others w',
    fetchProducts query w = (Val first, w1)
    /\ for_each_query queries [] w1 = (Val others, w')
    /\ for_each_query (query :: queries) [] w
       = (Val (first ++ others)%list, w').
Proof.
  destruct (fetchProducts_summary query w) as (ps & w1 & H1 & _).
  destruct (for_each_query_acc queries ps w1) as (r & w' & E1 & E2).
  exists ps, w1, r, w'. split; [exact H1|]. split; [exact E1|].
  cbn [for_each_query]. unfold bind. rewrite H1. exact E2.
Qed.


(** ** Reading the file as text *)

(** A content made of ASCII bytes is its own text. *)
Lemma utf8_text_ascii (bytes : string) :
  forallb (fun c => (N_of_ascii c <=? 127)%N) (list_ascii_of_string bytes)
  = true ->
  JS.utf8_text bytes = bytes.
Proof.
  intros H. unfold JS.utf8_text.
  assert (S : JS.strip_bom bytes = bytes).
  { destruct bytes as [|c rest]; [reflexivity|].
    cbn [list_ascii_of_string forallb] in H.
    apply andb_true_iff in H as [H _].
    unfold JS.strip_bom.
    destruct c as [[] [] [] [] [] [] [] []]; try reflexivity;
      vm_compute in H; discriminate. }
  rewrite S. clear S.
  induction bytes as [|c rest IH]; [reflexivity|].
  cbn [list_ascii_of_string forallb] in H.
  apply andb_true_iff in H as [Hc Hr].
  cbn [JS.utf8_decode_from]. unfold JS.lead_byte. rewrite Hc.
  cbn. now rewrite (IH Hr).
Qed.

(** A byte order mark at the start of the file is not kept: the run leaves
    the text after it, the line feed and the new row. *)
Example byte_order_mark_dropped :
  content (file (snd (run bom_run)))
  = Some ("old" ++ JS.LF ++ productToCsvRow phone)
  /\ JS.utf8_text "old" = "old".
Proof. split; vm_compute; reflexivity. Qed.

